(** * Face blurring pipelines of [processar_arquivos.py]

    A shallow embedding of [blur_faces_in_images] and
    [blur_faces_in_videos] together with the properties of the clamp, of
    the confidence filter, of the frame-sampling cache and of the output
    naming.

    Conventions of the embedding:
    - Python integers are [Z]; [%] is [Z.modulo] (the sign follows the
      divisor in both), and a zero divisor raises [ZeroDivisionError].
    - Python and tensor floats (confidences, box corners, the properties
      returned by [cap.get]) are rationals [Q]; only their order, the
      truncation done by [int(...)] and the comparison of a confidence with
      the threshold, which is made in float32, are used.
    - An image is a grid of pixels, a list of rows; a pixel (its three
      channels) is kept abstract.
    - The detector, the Gaussian blur, the codecs of OpenCV and the model
      loader are external collaborators: the fields of [Externals]. *)

From Stdlib Require Import ZArith QArith Qround Lia Lqa Ascii.
From stdpp Require Import gmap strings list.

Local Open Scope Z_scope.

(** ** Numbers *)

(** [int(x)] on a float: truncation towards zero. *)
Definition int (x : Q) : Z := Z.quot (Qnum x) (Z.pos (Qden x)).

(** [a > b] on two numbers of one type: the order of the rationals. The
    comparison of a confidence with the threshold is not this one but
    [conf_gt] below, which torch makes in float32. *)
Definition gt (a b : Q) : bool := Qnum b * QDen a <? Qnum a * QDen b.

(** ** Boxes and the clamp *)

(** [(x1, y1, x2, y2)] *)
Definition Box : Type := Z * Z * Z * Z.

(** Lines 54 and 138:
    [x1, y1, x2, y2 = max(0, x1), max(0, y1), min(width, x2), min(height, y2)] *)
Definition clamp (width height : Z) (b : Box) : Box :=
  let '(x1, y1, x2, y2) := b in
  (Z.max 0 x1, Z.max 0 y1, Z.min width x2, Z.min height y2).

(** The property a box inside a [width] x [height] frame is expected to have. *)
Definition within (width height : Z) (b : Box) : Prop :=
  let '(x1, y1, x2, y2) := b in
  (0 <= x1 /\ x1 <= x2 /\ x2 <= width) /\ (0 <= y1 /\ y1 <= y2 /\ y2 <= height).

Definition ordered (b : Box) : Prop :=
  let '(x1, y1, x2, y2) := b in x1 <= x2 /\ y1 <= y2.

(** What the detector reports for one face: [box.conf[0]] and [box.xyxy[0]]. *)
Record Detection : Type := { conf : Q; xyxy : Q * Q * Q * Q }.

(** [x1, y1, x2, y2 = map(int, box.xyxy[0])] *)
Definition int_box (d : Detection) : Box :=
  let '(x1, y1, x2, y2) := xyxy d in (int x1, int y1, int x2, int y2).

(** The boxes of a detection whose confidence is strictly above the
    threshold in the order of the rationals, in the order of the detection,
    with the corners as integers. This is the reading of the specification;
    [detect_faces] below is the loop of the source, and [boxes_passing] the
    boxes it keeps. *)
Definition above (confidence_threshold : Q) (d : Detection) : bool :=
  match (confidence_threshold ?= conf d)%Q with
  | Lt => true
  | _ => false
  end.

Definition boxes_above (confidence_threshold : Q)
    (results : list (list Detection)) : list Box :=
  concat (map (fun r => map int_box (filter (fun d => above confidence_threshold d = true) r))
              results).

(** ** Slices *)

(** Normalisation of one bound of [a:b] on an axis of length [n]: a negative
    bound counts from the end, and the result is clipped to [0..n]. *)
Definition slice_index (n i : Z) : Z :=
  let i := if i <? 0 then i + n else i in
  Z.max 0 (Z.min n i).

Section Slices.
Context {A : Type}.

(** [l[a:b]] *)
Definition slice (a b : Z) (l : list A) : list A :=
  let n := Z.of_nat (length l) in
  let s := slice_index n a in
  let e := slice_index n b in
  take (Z.to_nat (e - s)) (drop (Z.to_nat s) l).

(** [l[a:b] = v], element by element: position [i] of the slice receives
    [upd i old]. *)
Definition assign_slice (a b : Z) (upd : nat -> A -> A) (l : list A) : list A :=
  let n := Z.of_nat (length l) in
  let s := slice_index n a in
  let e := slice_index n b in
  imap (fun i x =>
          if (s <=? Z.of_nat i) && (Z.of_nat i <? e)
          then upd (i - Z.to_nat s)%nat x else x) l.
End Slices.

(** ** External collaborators *)

(** Exceptions that leave a pipeline, or that it catches. *)
Inductive exn : Type :=
| ZeroDivisionError
| LoadError (e : string).

(** An opened [cv2.VideoCapture]: the properties read with [cap.get] and
    the frames [cap.read()] delivers before it reports the end. *)
Record Video (P : Type) : Type := {
  CAP_PROP_FRAME_WIDTH : Q;
  CAP_PROP_FRAME_HEIGHT : Q;
  CAP_PROP_FPS : Q;
  CAP_PROP_FRAME_COUNT : Q;
  stream : list (list (list P));
}.
Arguments CAP_PROP_FRAME_WIDTH {P} _.
Arguments CAP_PROP_FRAME_HEIGHT {P} _.
Arguments CAP_PROP_FPS {P} _.
Arguments CAP_PROP_FRAME_COUNT {P} _.
Arguments stream {P} _.

(** The parts of OpenCV and of the detection library the script relies on.
    [Blob] is the content of a file on disk. *)
Class Externals : Type := {
  Pixel : Type;
  Blob : Type;
  (** the value [cv2.GaussianBlur(src, ksize, 0)] gives the pixel in row [i]
      and column [j] *)
  blur_at : list (list Pixel) -> Z * Z -> nat -> nat -> Pixel;
  (** decoding done by [cv2.imread]; [None] when the content is no image *)
  imdecode : Blob -> option (list (list Pixel));
  (** encoding done by [cv2.imwrite] for a file name *)
  imencode : string -> list (list Pixel) -> Blob;
  (** [cv2.VideoCapture] on a content; [None] when [isOpened()] is false *)
  VideoCapture : Blob -> option (Video Pixel);
  (** the content [cv2.VideoWriter(path, fourcc, fps, (width, height))]
      leaves on disk once the listed frames went through [write] *)
  VideoWriter : string -> Z -> Z -> Z * Z -> list (list (list Pixel)) -> Blob;
  (** [YOLO(weights)], given what is on disk under that name: the loaded
      model, or the exception raised *)
  YOLO : option Blob -> exn + (list (list Pixel) -> list (list Detection));
  (** [box.conf[0] > confidence_threshold] of lines 51 and 133: the
      confidence is an element of a float32 tensor and the threshold a
      Python float, which torch rounds to float32 before it compares *)
  conf_gt : Q -> Q -> bool;
  (** rounding to float32 keeps the order and leaves a float32 as it is, so
      that a confidence that passes is strictly above the threshold *)
  conf_gt_above : forall c t : Q, conf_gt c t = true -> (t < c)%Q;
}.

(** ** Frames *)

Section Frames.
Context `{Ext : Externals}.

(** [height x width] pixels, row by row. *)
Definition Frame : Type := list (list Pixel).

(** [height, width, _ = frame.shape] *)
Definition frame_height (frame : Frame) : Z := Z.of_nat (length frame).
Definition frame_width (frame : Frame) : Z :=
  match frame with
  | [] => 0
  | row :: _ => Z.of_nat (length row)
  end.

(** [frame[y1:y2, x1:x2]]; in a rectangular grid every row has the length
    of the second axis. *)
Definition roi (y1 y2 x1 x2 : Z) (frame : Frame) : Frame :=
  map (slice x1 x2) (slice y1 y2 frame).

(** [.size]: the number of scalars, three channels a pixel. *)
Definition size (r : Frame) : Z := 3 * Z.of_nat (length (concat r)).

(** [frame[y1:y2, x1:x2] = v] for [v] of the shape of the slice. *)
Definition set_roi (y1 y2 x1 x2 : Z) (v : Frame) (frame : Frame) : Frame :=
  assign_slice y1 y2
    (fun i row =>
       assign_slice x1 x2
         (fun j p => match v !! i ≫= (.!! j) with Some q => q | None => p end)
         row)
    frame.

(** [blur_kernel], a pair of sizes. *)
Definition Kernel : Type := Z * Z.

(** [cv2.GaussianBlur(src, ksize, 0)]: an image of the shape of [src]. *)
Definition GaussianBlur (src : Frame) (ksize : Kernel) : Frame :=
  imap (fun i row => imap (fun j _ => blur_at src ksize i j) row) src.

(** Lines 56-61 and 140-144: the region between the clamped corners is
    blurred in place when it is not empty. *)
Definition blur_roi (blur_kernel : Kernel) (frame : Frame) (b : Box) : Frame :=
  let '(x1, y1, x2, y2) := b in
  let face_roi := roi y1 y2 x1 x2 frame in
  if 0 <? size face_roi
  then set_roi y1 y2 x1 x2 (GaussianBlur face_roi blur_kernel) frame
  else frame.

(** Lines 54-61 and 138-144: the body run for one box. *)
Definition blur_box (width height : Z) (blur_kernel : Kernel)
    (frame : Frame) (b : Box) : Frame :=
  blur_roi blur_kernel frame (clamp width height b).

(** A loaded model: [model(frame, verbose=False)] gives a list of results,
    each with its [boxes]. *)
Definition Model : Type := Frame -> list (list Detection).

(** Lines 43-61: detection and blurring of one image, in place. *)
Definition blur_image_frame (model : Model) (blur_kernel : Kernel)
    (confidence_threshold : Q) (frame : Frame) : Frame :=
  let height := frame_height frame in
  let width := frame_width frame in
  let results := model frame in
  fold_left
    (fun frame r =>
       fold_left
         (fun frame box =>
            let confidence := conf box in
            if conf_gt confidence confidence_threshold
            then blur_box width height blur_kernel frame (int_box box)
            else frame)
         r frame)
    results frame.

(** Lines 129-135: the list rebuilt on a detection frame. *)
Definition detect_faces (model : Model) (confidence_threshold : Q)
    (frame : Frame) : list Box :=
  let results := model frame in
  fold_left
    (fun faces r =>
       fold_left
         (fun faces box =>
            if conf_gt (conf box) confidence_threshold
            then faces ++ [int_box box]
            else faces)
         r faces)
    results [].

(** Lines 137-144: every cached box is clamped, in a local copy, and
    blurred on the current frame. *)
Definition blur_faces (width height : Z) (blur_kernel : Kernel)
    (faces : list Box) (frame : Frame) : Frame :=
  fold_left (blur_box width height blur_kernel) faces frame.

(** The boxes of a detection that pass the comparison of lines 51 and 133,
    in the order of the detection, with the corners as integers. *)
Definition passes (confidence_threshold : Q) (d : Detection) : bool :=
  conf_gt (conf d) confidence_threshold.

Definition boxes_passing (confidence_threshold : Q)
    (results : list (list Detection)) : list Box :=
  concat (map (fun r => map int_box (filter (fun d => passes confidence_threshold d = true) r))
              results).

End Frames.

(** ** Paths ([posixpath]) *)

Definition sep : ascii := "/"%char.

Fixpoint has_sep (p : string) : bool :=
  match p with
  | EmptyString => false
  | String c r => if Ascii.eqb c sep then true else has_sep r
  end.

(** [os.path.basename(p)]: what follows the last separator. *)
Fixpoint basename (p : string) : string :=
  match p with
  | EmptyString => EmptyString
  | String c r =>
      if has_sep r then basename r
      else if Ascii.eqb c sep then r else p
  end.

Definition startswith_sep (p : string) : bool :=
  match p with
  | String c _ => Ascii.eqb c sep
  | EmptyString => false
  end.

Fixpoint endswith_sep (p : string) : bool :=
  match p with
  | EmptyString => false
  | String c EmptyString => Ascii.eqb c sep
  | String _ r => endswith_sep r
  end.

(** [os.path.join(a, b)] *)
Definition join (a b : string) : string :=
  if startswith_sep b then b
  else if String.eqb a EmptyString || endswith_sep a then a +:+ b
  else a +:+ "/" +:+ b.

(** [os.path.join(output_dir, f"blurred_{name}")], lines 34-35 and 99-100. *)
Definition output_path_of (output_dir path : string) : string :=
  join output_dir ("blurred_" +:+ basename path).

(** ** The world: file system and console *)

(** The lines [print] writes. *)
Inductive Msg : Type :=
| MsgDirCreated (output_dir : string)
| MsgModelError (e : exn)
| MsgImageMissing (image_path : string)
| MsgVideoMissing (video_path : string)
| MsgProcessing (name : string)
| MsgImageUnreadable (image_path : string)
| MsgVideoUnopened (video_path : string)
| MsgFrame (frame_number frame_count : Z) (video_name : string)
| MsgDone (name output_path : string)
| MsgAllImages
| MsgAllVideos.

Definition weights : string := "face_yolov8n_v2.pt".

(** [cv2.VideoWriter_fourcc] of the four characters of ['mp4v']. *)
Definition fourcc_mp4v : Z := 109 + 112 * 2 ^ 8 + 52 * 2 ^ 16 + 118 * 2 ^ 24.

Inductive outcome : Type :=
| Returned
| Raised (e : exn).

Section World.
Context `{Ext : Externals}.

Record World : Type := {
  files : gmap string Blob;
  dirs : gset string;
  console : list Msg;
}.

Definition print (w : World) (m : Msg) : World :=
  {| files := files w; dirs := dirs w; console := console w ++ [m] |}.

(** [os.path.exists(p)] *)
Definition path_exists (w : World) (p : string) : bool :=
  bool_decide (is_Some (files w !! p)) || bool_decide (p ∈ dirs w).

(** [os.makedirs(p)] for a path that has a name and whose parents are
    there: the one directory made. *)
Definition makedirs (w : World) (p : string) : World :=
  {| files := files w; dirs := {[p]} ∪ dirs w; console := console w |}.

Definition write_file (w : World) (p : string) (b : Blob) : World :=
  {| files := <[p := b]> (files w); dirs := dirs w; console := console w |}.

(** [cv2.imread(p)] *)
Definition cv2_imread (w : World) (p : string) : option Frame :=
  files w !! p ≫= imdecode.

(** [cv2.imwrite(p, frame)] where OpenCV writes: a name it has an encoder
    for, in a directory that is there. The source does not look at what the
    call returns; the statements about what a file holds carry these
    conditions as [image_name] and [output_dir_present]. *)
Definition cv2_imwrite (w : World) (p : string) (frame : Frame) : World :=
  write_file w p (imencode p frame).

(** Lines 19-21 and 84-86. *)
Definition ensure_output_dir (w : World) (output_dir : string) : World :=
  if negb (path_exists w output_dir)
  then print (makedirs w output_dir) (MsgDirCreated output_dir)
  else w.

(** ** The image pipeline *)

(** Lines 30-64: the body of the loop over [image_paths]. *)
Definition process_image (model : Model) (output_dir : string)
    (blur_kernel : Kernel) (confidence_threshold : Q)
    (w : World) (image_path : string) : World :=
  if negb (path_exists w image_path)
  then print w (MsgImageMissing image_path)
  else
    let image_name := basename image_path in
    let output_path := join output_dir ("blurred_" +:+ image_name) in
    let w := print w (MsgProcessing image_name) in
    match cv2_imread w image_path with
    | None => print w (MsgImageUnreadable image_path)
    | Some frame =>
        let frame :=
          blur_image_frame model blur_kernel confidence_threshold frame in
        let w := cv2_imwrite w output_path frame in
        print w (MsgDone image_name output_path)
    end.

(** Lines 6-66. *)
Definition blur_faces_in_images (image_paths : list string)
    (output_dir : string) (blur_kernel : Kernel) (confidence_threshold : Q)
    (w : World) : World :=
  let w := ensure_output_dir w output_dir in
  match YOLO (files w !! weights) with
  | inl e => print w (MsgModelError e)
  | inr model =>
      let w :=
        fold_left
          (process_image model output_dir blur_kernel confidence_threshold)
          image_paths w in
      print w MsgAllImages
  end.

(** ** The video pipeline *)

(** What the loop over the frames of one video carries: the two variables
    of lines 116-117, the frames handed to [out.write], the lines printed,
    and the frames handed to [model(...)]. *)
Record Loop : Type := {
  frame_number : Z;
  last_known_faces : list Box;
  written : list Frame;
  printed : list Msg;
  model_calls : list Frame;
}.

(** Lines 116-117. *)
Definition loop_start : Loop :=
  {| frame_number := 0; last_known_faces := []; written := [];
     printed := []; model_calls := [] |}.

(** Lines 124-146: the body of [while True] for a frame [cap.read()]
    delivered. *)
Definition video_frame (model : Model) (blur_kernel : Kernel)
    (confidence_threshold : Q) (detection_interval : Z)
    (width height frame_count : Z) (video_name : string)
    (st : Loop) (frame : Frame) : Loop * outcome :=
  let frame_number := frame_number st + 1 in
  let printed :=
    if frame_number mod 30 =? 0
    then printed st ++ [MsgFrame frame_number frame_count video_name]
    else printed st in
  if detection_interval =? 0
  then ({| frame_number := frame_number;
           last_known_faces := last_known_faces st;
           written := written st;
           printed := printed;
           model_calls := model_calls st |}, Raised ZeroDivisionError)
  else
    let detect := frame_number mod detection_interval =? 0 in
    let last_known_faces :=
      if detect
      then detect_faces model confidence_threshold frame
      else last_known_faces st in
    let model_calls :=
      if detect then model_calls st ++ [frame] else model_calls st in
    let frame := blur_faces width height blur_kernel last_known_faces frame in
    ({| frame_number := frame_number;
        last_known_faces := last_known_faces;
        written := written st ++ [frame];
        printed := printed;
        model_calls := model_calls |}, Returned).

(** Lines 119-146: [while True], until [cap.read()] reports the end or an
    exception leaves the loop. *)
Fixpoint video_loop (model : Model) (blur_kernel : Kernel)
    (confidence_threshold : Q) (detection_interval : Z)
    (width height frame_count : Z) (video_name : string)
    (frames : list Frame) (st : Loop) : Loop * outcome :=
  match frames with
  | [] => (st, Returned)
  | frame :: frames =>
      match video_frame model blur_kernel confidence_threshold
              detection_interval width height frame_count video_name
              st frame with
      | (st, Returned) =>
          video_loop model blur_kernel confidence_threshold
            detection_interval width height frame_count video_name
            frames st
      | (st, Raised e) => (st, Raised e)
      end
  end.

(** Lines 95-150: the body of the loop over [video_paths]. Where the
    writer opens, its file exists from line 114 on and holds what went
    through [out.write]; the source does not test that it opened, and the
    statements about what the file holds carry the conditions for it: a
    frame rate of one at least once truncated, and [output_dir_present]. *)
Definition process_video (model : Model) (output_dir : string)
    (blur_kernel : Kernel) (confidence_threshold : Q)
    (detection_interval : Z)
    (w : World) (video_path : string) : World * outcome :=
  if negb (path_exists w video_path)
  then (print w (MsgVideoMissing video_path), Returned)
  else
    let video_name := basename video_path in
    let output_path := join output_dir ("blurred_" +:+ video_name) in
    let w := print w (MsgProcessing video_name) in
    match files w !! video_path ≫= VideoCapture with
    | None => (print w (MsgVideoUnopened video_path), Returned)
    | Some cap =>
        let width := int (CAP_PROP_FRAME_WIDTH cap) in
        let height := int (CAP_PROP_FRAME_HEIGHT cap) in
        let fps := int (CAP_PROP_FPS cap) in
        let frame_count := int (CAP_PROP_FRAME_COUNT cap) in
        let fourcc := fourcc_mp4v in
        let out := VideoWriter output_path fourcc fps (width, height) in
        let '(st, res) :=
          video_loop model blur_kernel confidence_threshold
            detection_interval width height frame_count video_name
            (stream cap) loop_start in
        let w :=
          {| files := <[output_path := out (written st)]> (files w);
             dirs := dirs w;
             console := console w ++ printed st |} in
        match res with
        | Returned => (print w (MsgDone video_name output_path), Returned)
        | Raised e => (w, Raised e)
        end
    end.

(** Lines 94-150: [for video_path in video_paths]. *)
Fixpoint process_videos (model : Model) (output_dir : string)
    (blur_kernel : Kernel) (confidence_threshold : Q)
    (detection_interval : Z)
    (video_paths : list string) (w : World) : World * outcome :=
  match video_paths with
  | [] => (w, Returned)
  | video_path :: video_paths =>
      match process_video model output_dir blur_kernel
              confidence_threshold detection_interval w video_path with
      | (w, Returned) =>
          process_videos model output_dir blur_kernel confidence_threshold
            detection_interval video_paths w
      | (w, Raised e) => (w, Raised e)
      end
  end.

(** Lines 69-152. *)
Definition blur_faces_in_videos (video_paths : list string)
    (output_dir : string) (blur_kernel : Kernel) (confidence_threshold : Q)
    (detection_interval : Z) (w : World) : World * outcome :=
  let w := ensure_output_dir w output_dir in
  match YOLO (files w !! weights) with
  | inl e => (print w (MsgModelError e), Returned)
  | inr model =>
      match process_videos model output_dir blur_kernel
              confidence_threshold detection_interval video_paths w with
      | (w, Returned) => (print w MsgAllVideos, Returned)
      | (w, Raised e) => (w, Raised e)
      end
  end.

End World.

(** The output paths the console reports as saved, in the order of the
    reports: one for every input processed to its end. *)
Definition outputs_done (lines : list Msg) : list string :=
  concat (map (fun m => match m with
                        | MsgDone _ output_path => [output_path]
                        | _ => []
                        end) lines).

(** The output directory is there before the call, as a directory:
    line 19 finds it, and the writers of lines 63 and 114 can make a file
    in it. *)
Definition output_dir_present `{Ext : Externals} (w : World)
    (output_dir : string) : Prop :=
  output_dir <> EmptyString /\ output_dir ∈ dirs w /\
  files w !! output_dir = None.

(** ** Reading a pixel *)

(** [frame[i, j]] for indices inside the frame; [None] outside. *)
Definition pixel_at `{Ext : Externals} (frame : Frame) (i j : nat) : option Pixel :=
  frame !! i ≫= (.!! j).

(** The pixel of row [i] and column [j] lies between the corners of a box. *)
Definition covers (b : Box) (i j : nat) : Prop :=
  let '(x1, y1, x2, y2) := b in
  y1 <= Z.of_nat i < y2 /\ x1 <= Z.of_nat j < x2.

(** The cache after [n] frames of [frames], in closed form for a positive
    interval: the boxes that pass the comparison with the threshold on the
    last frame whose number, counted from one, is a multiple of the
    interval, and no box before the first such frame. *)
Definition sampled_faces `{Ext : Externals} (model : Model)
    (confidence_threshold : Q) (detection_interval : Z)
    (frames : list Frame) (n : Z) : list Box :=
  let k := n / detection_interval in
  if k =? 0 then []
  else match frames !! Z.to_nat (detection_interval * k - 1) with
       | Some frame => boxes_passing confidence_threshold (model frame)
       | None => []
       end.

(** ** The script (lines 4 and 154-189)

    A character of a name is a code point below 256. *)

(** [c.lower()] *)
Definition lower_char (c : ascii) : ascii :=
  let n := N_of_ascii c in
  if ((65 <=? n) && (n <=? 90) ||
      (192 <=? n) && (n <=? 222) && negb (n =? 215))%N
  then ascii_of_N (n + 32) else c.

(** [s.lower()] *)
Fixpoint lower (s : string) : string :=
  match s with
  | EmptyString => EmptyString
  | String c r => String (lower_char c) (lower r)
  end.

(** [s.endswith(suffix)] for one suffix. *)
Fixpoint endswith (s suffix : string) : bool :=
  if String.eqb s suffix then true
  else match s with
       | EmptyString => false
       | String _ r => endswith r suffix
       end.

(** [s.endswith((suffix, ...))] *)
Definition endswith_any (s : string) (suffixes : list string) : bool :=
  existsb (endswith s) suffixes.

Definition video_extensions : list string := [".mp4"; ".avi"; ".mov"; ".mkv"].
Definition image_extensions : list string := [".jpg"; ".jpeg"; ".png"].

(** A path named as the images the script lists are (line 178); for such a
    name [cv2.imwrite] finds an encoder. *)
Definition image_name (path : string) : bool :=
  endswith_any (lower (basename path)) image_extensions.

(** Lines 175-178:
    [[os.path.join(d, f) for f in names if f.lower().endswith(extensions)]]
    for the [names] that [os.listdir(d)] gives. *)
Definition listed (d : string) (extensions names : list string) : list string :=
  map (join d)
      (filter (fun f => endswith_any (lower f) extensions = true) names).

Definition input_videos_dir : string := "input_videos".
Definition input_images_dir : string := "input_images".
Definition output_videos_dir : string := "blurred_videos".
Definition output_images_dir : string := "blurred_images".

(** The lines the script prints itself, and those of the pipelines. *)
Inductive Line : Type :=
| LineTitle
| LineInstall
| LineCreateDirs
| LineUncomment
| LineVideosDirCreated (d : string)
| LineImagesDirCreated (d : string)
| LineNoVideos
| LineNoImages
| LinePipeline (m : Msg).

(** How a run of the script ends. *)
Inductive script_end : Type :=
| Finished
| ImportFailed (e : exn)
| ListdirFailed (d : string)
| PipelineRaised (e : exn).

Section Script.
Context `{Ext : Externals}.

(** [os.listdir(d)] on a disk: the names in [d], or [None] when it raises. *)
Variable listdir : gmap string Blob -> gset string -> string -> option (list string).

Record Script : Type := {
  sfiles : gmap string Blob;
  sdirs : gset string;
  stdout : list Line;
}.

Definition say (s : Script) (l : Line) : Script :=
  {| sfiles := sfiles s; sdirs := sdirs s; stdout := stdout s ++ [l] |}.

(** The world a pipeline called by the script starts in, and the state of
    the script once the pipeline is back: what the pipeline printed follows
    what was printed before. *)
Definition enter (s : Script) : World :=
  {| files := sfiles s; dirs := sdirs s; console := [] |}.

Definition leave (s : Script) (w : World) : Script :=
  {| sfiles := files w; sdirs := dirs w;
     stdout := stdout s ++ map LinePipeline (console w) |}.

(** Lines 167-172. *)
Definition ensure_input_dir (s : Script) (d : string) (created : string -> Line)
    : Script :=
  if negb (path_exists (enter s) d)
  then say {| sfiles := sfiles s; sdirs := {[d]} ∪ sdirs s; stdout := stdout s |}
           (created d)
  else s.

(** Lines 154-189. *)
Definition main (s : Script) : Script * script_end :=
  let s := say s LineTitle in
  let s := say s LineInstall in
  let s := say s LineCreateDirs in
  let s := say s LineUncomment in
  let s := ensure_input_dir s input_videos_dir LineVideosDirCreated in
  let s := ensure_input_dir s input_images_dir LineImagesDirCreated in
  match listdir (sfiles s) (sdirs s) input_videos_dir with
  | None => (s, ListdirFailed input_videos_dir)
  | Some names =>
      let input_videos := listed input_videos_dir video_extensions names in
      match listdir (sfiles s) (sdirs s) input_images_dir with
      | None => (s, ListdirFailed input_images_dir)
      | Some names =>
          let input_images := listed input_images_dir image_extensions names in
          let '(s, res) :=
            match input_videos with
            | _ :: _ =>
                let '(w, res) :=
                  blur_faces_in_videos input_videos output_videos_dir
                    (75, 75) (6 # 10) 10 (enter s) in
                (leave s w, res)
            | [] => (say s LineNoVideos, Returned)
            end in
          match res with
          | Raised e => (s, PipelineRaised e)
          | Returned =>
              match input_images with
              | _ :: _ =>
                  (leave s
                     (blur_faces_in_images input_images output_images_dir
                        (75, 75) (6 # 10) (enter s)),
                   Finished)
              | [] => (say s LineNoImages, Finished)
              end
          end
      end
  end.

(** Line 4, then the block under [if __name__ == '__main__']. *)
Definition script (s : Script) : Script * script_end :=
  match YOLO (sfiles s !! weights) with
  | inl e => (s, ImportFailed e)
  | inr _ => main s
  end.

End Script.

(** ** A small instance

    Pixels are integers, a file holds an image, a video, the weights of the
    model or something else, the codecs lose nothing, and the blur gives
    every pixel of a region the mean of the region. The comparison of a
    confidence with the threshold rounds both to 24 binary places, which is
    what rounding to float32 does to a number between one half and one. *)

Inductive ExBlob : Type :=
| ExImage (f : list (list Z))
| ExVideo (v : Video Z)
| ExWeights
| ExOther.

Definition ex_blur_at (src : list (list Z)) (ksize : Z * Z) (i j : nat) : Z :=
  fold_right Z.add 0 (concat src) / Z.of_nat (length (concat src)).

(** One face well above the threshold in use, reaching out of a frame of
    four by four pixels, and one face at a confidence of one half. *)
Definition ex_results : list (list Detection) :=
  [[ {| conf := 9 # 10; xyxy := (- 5 # 2, 3 # 2, 5 # 2, 19 # 2) |};
     {| conf := 1 # 2; xyxy := (0 # 1, 0 # 1, 1 # 1, 1 # 1) |} ]].

Definition ex_model (frame : list (list Z)) : list (list Detection) :=
  ex_results.

(** The integer nearest to a rational, a tie going to the even one. *)
Definition round_even (q : Q) : Z :=
  let f := Qfloor q in
  match (q - inject_Z f ?= 1 # 2)%Q with
  | Lt => f
  | Eq => if Z.even f then f else f + 1
  | Gt => f + 1
  end.

Definition ex_float32 (q : Q) : Q :=
  round_even (q * inject_Z (2 ^ 24)) # (2 ^ 24).

Definition ex_conf_gt (c t : Q) : bool := gt (ex_float32 c) (ex_float32 t).

(** The law of [conf_gt] for this comparison: rounding keeps the order. *)
Definition round_even_bounds (q : Q) :
  Qfloor q <= round_even q <= Qfloor q + 1.
Proof.
  unfold round_even. destruct (_ ?= _)%Q; [destruct (Z.even _) | |]; lia.
Qed.

Definition round_even_le (x y : Q) :
  (x <= y)%Q -> round_even x <= round_even y.
Proof.
  intros Hxy.
  pose proof (Qfloor_resp_le x y Hxy) as Hf.
  pose proof (round_even_bounds x) as Hx. pose proof (round_even_bounds y) as Hy.
  destruct (Z.eq_dec (Qfloor x) (Qfloor y)) as [Heq | Hne]; [| lia].
  clear Hx Hy Hf. unfold round_even. rewrite <- Heq.
  set (f := Qfloor x) in *.
  destruct (x - inject_Z f ?= 1 # 2)%Q eqn:Hcx;
    destruct (y - inject_Z f ?= 1 # 2)%Q eqn:Hcy;
    try (destruct (Z.even f)); try lia; exfalso;
    first [apply Qeq_alt in Hcx | apply Qlt_alt in Hcx | apply Qgt_alt in Hcx];
    first [apply Qeq_alt in Hcy | apply Qlt_alt in Hcy | apply Qgt_alt in Hcy];
    lra.
Qed.

Definition ex_conf_gt_above (c t : Q) : ex_conf_gt c t = true -> (t < c)%Q.
Proof.
  unfold ex_conf_gt, ex_float32, gt. cbn [Qnum Qden]. intros Hgt.
  apply Z.ltb_lt in Hgt.
  apply Z.mul_lt_mono_pos_r in Hgt; [| reflexivity].
  apply Qnot_le_lt. intros Hle.
  assert (Hs : (c * inject_Z (2 ^ 24) <= t * inject_Z (2 ^ 24))%Q).
  { apply Qmult_le_compat_r; [exact Hle | discriminate]. }
  apply round_even_le in Hs. lia.
Qed.

(** A face whose confidence is the float32 nearest to 0.6, for a threshold
    that is the Python float 0.6. *)
Definition ex_conf_edge : Q := 5033165 # 8388608.
Definition ex_threshold_edge : Q := 5404319552844595 # 9007199254740992.

Definition ex_model_edge (frame : list (list Z)) : list (list Detection) :=
  [[ {| conf := ex_conf_edge; xyxy := (0 # 1, 0 # 1, 2 # 1, 2 # 1) |} ]].

Definition ex_externals : Externals :=
  {| Pixel := Z;
     Blob := ExBlob;
     blur_at := ex_blur_at;
     imdecode := fun b => match b with ExImage f => Some f | _ => None end;
     imencode := fun _ f => ExImage f;
     VideoCapture := fun b => match b with ExVideo v => Some v | _ => None end;
     VideoWriter := fun _ _ fps size frames =>
       ExVideo {| CAP_PROP_FRAME_WIDTH := inject_Z (fst size);
                  CAP_PROP_FRAME_HEIGHT := inject_Z (snd size);
                  CAP_PROP_FPS := inject_Z fps;
                  CAP_PROP_FRAME_COUNT := inject_Z (Z.of_nat (length frames));
                  stream := frames |};
     YOLO := fun b =>
       match b with
       | Some ExWeights => inr ex_model
       | _ => inl (LoadError "no weights")
       end;
     conf_gt := ex_conf_gt;
     conf_gt_above := ex_conf_gt_above |}.

Definition ex_frame_a : list (list Z) :=
  [[10; 20; 30; 40]; [50; 60; 70; 80]; [90; 100; 110; 120]; [130; 140; 150; 160]].

Definition ex_frame_b : list (list Z) :=
  [[1; 2; 3; 4]; [5; 6; 7; 8]; [9; 10; 11; 12]; [13; 14; 15; 16]].

(** A video of three frames at 29.97 frames a second. *)
Definition ex_video : Video Z :=
  {| CAP_PROP_FRAME_WIDTH := 4 # 1;
     CAP_PROP_FRAME_HEIGHT := 4 # 1;
     CAP_PROP_FPS := 30000 # 1001;
     CAP_PROP_FRAME_COUNT := 3 # 1;
     stream := [ex_frame_a; ex_frame_b; ex_frame_a] |}.

Definition ex_files : gmap string (@Blob ex_externals) :=
  <["in/a/x.png" := ExImage ex_frame_a]>
    (<["in/b/x.png" := ExImage ex_frame_b]>
       (<["in/a/v.mp4" := ExVideo ex_video]>
          (<["in/b/v.mp4" := ExVideo ex_video]>
             (<[weights := ExWeights]> ∅)))).

Definition ex_world : @World ex_externals :=
  {| files := ex_files; dirs := {["in"]}; console := [] |}.

(** A video whose properties are whole numbers, the frame rate written
    as [60 / 2]. *)
Definition ex_video_whole : Video Z :=
  {| CAP_PROP_FRAME_WIDTH := 4 # 1;
     CAP_PROP_FRAME_HEIGHT := 4 # 1;
     CAP_PROP_FPS := 60 # 2;
     CAP_PROP_FRAME_COUNT := 2 # 1;
     stream := [ex_frame_a; ex_frame_b] |}.

(** A disk where the output directory is made, and where the two videos
    named [v.mp4] differ. *)
Definition ex_world_out : @World ex_externals :=
  {| files := <["in/b/v.mp4" := ExVideo ex_video_whole]> ex_files;
     dirs := {["in"; "out"]}; console := [] |}.

(** The same disk without the weights of the model. *)
Definition ex_world_bare : @World ex_externals :=
  {| files := delete weights ex_files; dirs := {["in"]}; console := [] |}.


(** The disk of a run of the script, and the names its two input
    directories list. *)
Definition ex_listdir (fs : gmap string ExBlob) (ds : gset string) (d : string)
    : option (list string) :=
  Some (if String.eqb d input_videos_dir
        then ["a.MP4"; "notes.txt"]
        else ["x.png"; "y.JPG"; "clip.mov"]).

Definition ex_script : @Script ex_externals :=
  {| sfiles :=
       <["input_videos/a.MP4" := ExVideo ex_video]>
         (<["input_images/x.png" := ExImage ex_frame_a]>
            (<[weights := ExWeights]> ∅));
     sdirs := {[input_videos_dir]};
     stdout := [] |}.

(** * Properties *)

(** ** The clamp *)

Lemma clamp_lower_upper width height x1 y1 x2 y2 :
  let '(a, b, c, d) := clamp width height (x1, y1, x2, y2) in
  0 <= a /\ 0 <= b /\ c <= width /\ d <= height.
Proof. simpl. lia. Qed.

(** C2, as the code has it: a box with ordered corners that meets a frame
    of non-negative dimensions is clamped to corners with
    [0 <= x1 <= x2 <= width] and [0 <= y1 <= y2 <= height]. *)
Theorem clamp_within width height (b : Box) :
  0 <= width -> 0 <= height ->
  ordered b ->
  (let '(x1, y1, x2, y2) := b in
   x1 <= width /\ 0 <= x2 /\ y1 <= height /\ 0 <= y2) ->
  within width height (clamp width height b).
Proof.
  destruct b as [[[x1 y1] x2] y2]. unfold ordered, within, clamp. lia.
Qed.

Lemma clamp_within_witness :
  within 640 480 (clamp 640 480 (-7, 470, 30, 500)).
Proof. apply clamp_within; simpl; lia. Defined.

(** C2, as stated, fails: a box with ordered corners left of and above the
    frame keeps negative right and bottom corners. *)
Lemma clamp_within_fails :
  ordered (-10, -10, -5, -5) /\
  clamp 100 100 (-10, -10, -5, -5) = (0, 0, -5, -5) /\
  ~ within 100 100 (clamp 100 100 (-10, -10, -5, -5)) /\
  ~ ordered (clamp 100 100 (-10, -10, -5, -5)).
Proof.
  split; [simpl; lia |]. split; [reflexivity |].
  split; intros Hc; simpl in Hc; lia.
Qed.

(** C8: clamping twice with the same dimensions is clamping once. *)
Theorem clamp_idempotent width height (b : Box) :
  clamp width height (clamp width height b) = clamp width height b.
Proof.
  destruct b as [[[x1 y1] x2] y2]. unfold clamp.
  rewrite !Z.max_assoc, !Z.min_assoc, !Z.max_id, !Z.min_id. reflexivity.
Qed.

(** ** The blur *)

(** The blurred region has the shape of the region, so that the assignment
    of line 61 and of line 144 fills the slice it was cut from. *)
Lemma GaussianBlur_shape `{Ext : Externals} (src : Frame) (ksize : Kernel) :
  map length (GaussianBlur src ksize) = map length src.
Proof.
  unfold GaussianBlur. generalize (blur_at src ksize). intros f.
  induction src as [| row rows IH] in f |- *; [reflexivity |].
  simpl. rewrite length_imap. f_equal. apply (IH (fun i => f (S i))).
Qed.

(** ** The confidence filter *)

Lemma gt_above (confidence_threshold : Q) (d : Detection) :
  gt (conf d) confidence_threshold = above confidence_threshold d.
Proof. reflexivity. Qed.

Lemma gt_true_iff (c confidence_threshold : Q) :
  gt c confidence_threshold = true <-> (confidence_threshold < c)%Q.
Proof. unfold gt, Qlt. apply Z.ltb_lt. Qed.

Lemma gt_false_of_eq (c confidence_threshold : Q) :
  (c == confidence_threshold)%Q -> gt c confidence_threshold = false.
Proof.
  intros Heq. destruct (gt c confidence_threshold) eqn:Hgt; [| reflexivity].
  apply gt_true_iff in Hgt. rewrite Heq in Hgt.
  exfalso. exact (Qlt_irrefl _ Hgt).
Qed.

Section Selection.
Context `{Ext : Externals}.
Variables (model : Model) (blur_kernel : Kernel) (confidence_threshold : Q).

Lemma boxes_above_cons (r : list Detection) (results : list (list Detection)) :
  boxes_above confidence_threshold (r :: results) =
  map int_box (filter (fun d => above confidence_threshold d = true) r)
  ++ boxes_above confidence_threshold results.
Proof. reflexivity. Qed.

Lemma boxes_above_app (rs1 rs2 : list (list Detection)) :
  boxes_above confidence_threshold (rs1 ++ rs2) =
  boxes_above confidence_threshold rs1 ++ boxes_above confidence_threshold rs2.
Proof. unfold boxes_above. rewrite map_app, concat_app. reflexivity. Qed.

Lemma boxes_passing_cons (r : list Detection) (results : list (list Detection)) :
  boxes_passing confidence_threshold (r :: results) =
  map int_box (filter (fun d => passes confidence_threshold d = true) r)
  ++ boxes_passing confidence_threshold results.
Proof. reflexivity. Qed.


(** What passes the comparison of the source is strictly above the
    threshold. *)
Lemma passes_above (d : Detection) :
  passes confidence_threshold d = true -> above confidence_threshold d = true.
Proof.
  unfold passes. intros Hp. apply conf_gt_above in Hp.
  rewrite <- gt_above. apply gt_true_iff. exact Hp.
Qed.

(** The boxes the source keeps are among the boxes strictly above the
    threshold, in their order. *)
Lemma boxes_passing_sublist (results : list (list Detection)) :
  sublist (boxes_passing confidence_threshold results)
          (boxes_above confidence_threshold results).
Proof.
  induction results as [| r results IH]; [constructor |].
  rewrite boxes_passing_cons, boxes_above_cons.
  apply sublist_app; [| exact IH]. clear IH.
  induction r as [| d r IHr]; [constructor |].
  rewrite !filter_cons.
  destruct (passes confidence_threshold d) eqn:Hp.
  - rewrite decide_True by reflexivity.
    rewrite decide_True by (apply passes_above; exact Hp).
    simpl. constructor. exact IHr.
  - rewrite decide_False by discriminate.
    destruct (decide (above confidence_threshold d = true)); [| exact IHr].
    simpl. constructor. exact IHr.
Qed.

(** The inner loop of lines 132-135 appends the selected boxes. *)
Lemma collect_boxes (r : list Detection) (faces : list Box) :
  fold_left
    (fun faces box =>
       if conf_gt (conf box) confidence_threshold
       then faces ++ [int_box box] else faces)
    r faces
  = faces ++ map int_box (filter (fun d => passes confidence_threshold d = true) r).
Proof.
  revert faces. induction r as [| d r IH]; intros faces; simpl.
  - rewrite app_nil_r. reflexivity.
  - rewrite IH, filter_cons. fold (passes confidence_threshold d).
    destruct (passes confidence_threshold d) eqn:Hd.
    + rewrite decide_True by reflexivity. simpl. rewrite <- app_assoc. reflexivity.
    + rewrite decide_False by discriminate. reflexivity.
Qed.

Lemma collect_results (results : list (list Detection)) (faces : list Box) :
  fold_left
    (fun faces r =>
       fold_left
         (fun faces box =>
            if conf_gt (conf box) confidence_threshold
            then faces ++ [int_box box] else faces)
         r faces)
    results faces
  = faces ++ boxes_passing confidence_threshold results.
Proof.
  revert faces. induction results as [| r results IH]; intros faces; simpl.
  - rewrite app_nil_r. reflexivity.
  - rewrite IH, collect_boxes, boxes_passing_cons, app_assoc. reflexivity.
Qed.

(** The list of lines 129-135 is the list of the boxes that pass the
    comparison. *)
Lemma detect_faces_boxes_passing (frame : Frame) :
  detect_faces model confidence_threshold frame =
  boxes_passing confidence_threshold (model frame).
Proof. unfold detect_faces. apply collect_results. Qed.

(** The inner loop of lines 48-61 blurs the selected boxes in turn. *)
Lemma blur_selected_boxes (width height : Z) (r : list Detection) (frame : Frame) :
  fold_left
    (fun frame box =>
       if conf_gt (conf box) confidence_threshold
       then blur_box width height blur_kernel frame (int_box box)
       else frame)
    r frame
  = blur_faces width height blur_kernel
      (map int_box (filter (fun d => passes confidence_threshold d = true) r)) frame.
Proof.
  revert frame. induction r as [| d r IH]; intros frame; simpl; [reflexivity |].
  rewrite IH, filter_cons. fold (passes confidence_threshold d).
  destruct (passes confidence_threshold d) eqn:Hd.
  - rewrite decide_True by reflexivity. reflexivity.
  - rewrite decide_False by discriminate. reflexivity.
Qed.

Lemma blur_faces_app (width height : Z) (faces1 faces2 : list Box) (frame : Frame) :
  blur_faces width height blur_kernel (faces1 ++ faces2) frame =
  blur_faces width height blur_kernel faces2
    (blur_faces width height blur_kernel faces1 frame).
Proof. unfold blur_faces. apply fold_left_app. Qed.

Lemma blur_selected_results (width height : Z)
    (results : list (list Detection)) (frame : Frame) :
  fold_left
    (fun frame r =>
       fold_left
         (fun frame box =>
            if conf_gt (conf box) confidence_threshold
            then blur_box width height blur_kernel frame (int_box box)
            else frame)
         r frame)
    results frame
  = blur_faces width height blur_kernel
      (boxes_passing confidence_threshold results) frame.
Proof.
  revert frame. induction results as [| r results IH]; intros frame; simpl;
    [reflexivity |].
  rewrite IH, blur_selected_boxes, boxes_passing_cons, blur_faces_app.
  reflexivity.
Qed.

(** Lines 43-61 blur, with the dimensions of the image itself, the boxes
    that pass the comparison. *)
Lemma blur_image_frame_boxes_passing (frame : Frame) :
  blur_image_frame model blur_kernel confidence_threshold frame =
  blur_faces (frame_width frame) (frame_height frame) blur_kernel
    (boxes_passing confidence_threshold (model frame)) frame.
Proof. unfold blur_image_frame. apply blur_selected_results. Qed.

End Selection.

(** ** The loop over the frames of a video *)

(** Unfolds the body of the loop and decides the test that guards the
    division of line 128. *)
Ltac step_with_interval :=
  unfold video_frame;
  match goal with
  | |- context [?d =? 0] => destruct (Z.eqb_spec d 0)
  end;
  first [contradiction | reflexivity].

Section VideoLoop.
Context `{Ext : Externals}.
Variables (model : Model) (blur_kernel : Kernel) (confidence_threshold : Q).
Variables (detection_interval width height frame_count : Z).
Variable video_name : string.

Local Abbreviation step :=
  (video_frame model blur_kernel confidence_threshold detection_interval
     width height frame_count video_name).
Local Abbreviation loop :=
  (video_loop model blur_kernel confidence_threshold detection_interval
     width height frame_count video_name).
Local Abbreviation run frames := (fst (loop frames loop_start)).

Lemma video_loop_app (frames1 frames2 : list Frame) (st : Loop) :
  loop (frames1 ++ frames2) st =
  match loop frames1 st with
  | (st', Returned) => loop frames2 st'
  | (st', Raised e) => (st', Raised e)
  end.
Proof.
  revert st. induction frames1 as [| frame frames1 IH]; intros st; simpl.
  - reflexivity.
  - destruct (step st frame) as [st' [| e]]; [apply IH | reflexivity].
Qed.

Section NonZero.
Hypothesis interval_nonzero : detection_interval <> 0.

Lemma video_frame_returns (st : Loop) (frame : Frame) :
  snd (step st frame) = Returned.
Proof. step_with_interval. Qed.

Lemma video_frame_number (st : Loop) (frame : Frame) :
  frame_number (fst (step st frame)) = frame_number st + 1.
Proof. step_with_interval. Qed.

Lemma video_frame_faces (st : Loop) (frame : Frame) :
  last_known_faces (fst (step st frame)) =
  if (frame_number st + 1) mod detection_interval =? 0
  then detect_faces model confidence_threshold frame
  else last_known_faces st.
Proof. step_with_interval. Qed.

Lemma video_frame_calls (st : Loop) (frame : Frame) :
  model_calls (fst (step st frame)) =
  if (frame_number st + 1) mod detection_interval =? 0
  then model_calls st ++ [frame]
  else model_calls st.
Proof. step_with_interval. Qed.

Lemma video_frame_written (st : Loop) (frame : Frame) :
  written (fst (step st frame)) =
  written st ++
    [blur_faces width height blur_kernel
       (last_known_faces (fst (step st frame))) frame].
Proof. step_with_interval. Qed.

Lemma video_loop_returns (frames : list Frame) (st : Loop) :
  snd (loop frames st) = Returned.
Proof.
  revert st. induction frames as [| frame frames IH]; intros st; simpl.
  - reflexivity.
  - pose proof (video_frame_returns st frame) as Hret.
    destruct (step st frame) as [st' res]. simpl in Hret. subst res.
    apply IH.
Qed.

Lemma video_loop_snoc (frames : list Frame) (frame : Frame) (st : Loop) :
  fst (loop (frames ++ [frame]) st) = fst (step (fst (loop frames st)) frame).
Proof.
  rewrite video_loop_app.
  pose proof (video_loop_returns frames st) as Hret.
  destruct (loop frames st) as [st' res]. simpl in Hret. subst res.
  simpl. destruct (step st' frame) as [st'' [| e]]; reflexivity.
Qed.

Lemma video_loop_frame_number (frames : list Frame) (st : Loop) :
  frame_number (fst (loop frames st)) =
  frame_number st + Z.of_nat (length frames).
Proof.
  induction frames as [| frame frames IH] using rev_ind.
  - simpl. lia.
  - rewrite video_loop_snoc, video_frame_number, IH, length_app. simpl. lia.
Qed.

Lemma mod_zero_divide (n : Z) :
  n mod detection_interval = 0 <-> (detection_interval | n).
Proof. apply Z.mod_divide. exact interval_nonzero. Qed.

End NonZero.

(** C1, as the code has it: with a detection interval other than zero, the
    frame whose number, counted from one, is a multiple of the interval is
    handed to the detector and the cache becomes, whatever it held, the list
    of the boxes that pass the comparison of line 133, which are among the
    boxes strictly above the threshold and in their order; any other frame
    leaves the cache and the detector alone. *)
Theorem cache_transition (pre : list Frame) (frame : Frame) :
  detection_interval <> 0 ->
  let n := Z.of_nat (length pre) + 1 in
  snd (loop (pre ++ [frame]) loop_start) = Returned /\
  frame_number (run (pre ++ [frame])) = n /\
  ((detection_interval | n) ->
     last_known_faces (run (pre ++ [frame])) =
       boxes_passing confidence_threshold (model frame) /\
     sublist (last_known_faces (run (pre ++ [frame])))
             (boxes_above confidence_threshold (model frame)) /\
     model_calls (run (pre ++ [frame])) = model_calls (run pre) ++ [frame]) /\
  (~ (detection_interval | n) ->
     last_known_faces (run (pre ++ [frame])) = last_known_faces (run pre) /\
     model_calls (run (pre ++ [frame])) = model_calls (run pre)).
Proof.
  intros Hd n.
  assert (Hn : frame_number (run pre) + 1 = n).
  { rewrite video_loop_frame_number by exact Hd. reflexivity. }
  split; [apply video_loop_returns; exact Hd |].
  rewrite video_loop_snoc by exact Hd.
  rewrite video_frame_number, video_frame_faces, video_frame_calls by exact Hd.
  rewrite Hn.
  split; [reflexivity |].
  destruct (Z.eqb_spec (n mod detection_interval) 0) as [Hz | Hnz].
  - apply mod_zero_divide in Hz; [| exact Hd]. split.
    + intros _. rewrite detect_faces_boxes_passing.
      split; [reflexivity |]. split; [apply boxes_passing_sublist | reflexivity].
    + intros Hnd. contradiction.
  - split.
    + intros Hdiv. apply mod_zero_divide in Hdiv; [contradiction | exact Hd].
    + intros _. split; reflexivity.
Qed.

End VideoLoop.

Section VideoCache.
Context `{Ext : Externals}.
Variables (model : Model) (blur_kernel : Kernel) (confidence_threshold : Q).
Variables (detection_interval width height frame_count : Z).
Variable video_name : string.
Hypothesis interval_nonzero : detection_interval <> 0.

Local Abbreviation step :=
  (video_frame model blur_kernel confidence_threshold detection_interval
     width height frame_count video_name).
Local Abbreviation loop :=
  (video_loop model blur_kernel confidence_threshold detection_interval
     width height frame_count video_name).
Local Abbreviation run frames := (fst (loop frames loop_start)).

Lemma video_loop_cons (frame : Frame) (frames : list Frame) (st : Loop) :
  fst (loop (frame :: frames) st) = fst (loop frames (fst (step st frame))).
Proof.
  simpl.
  pose proof (video_frame_returns model blur_kernel confidence_threshold
                detection_interval width height frame_count video_name
                interval_nonzero st frame) as Hret.
  destruct (step st frame) as [st' res]. simpl in Hret. subst res.
  reflexivity.
Qed.

Lemma video_loop_run_app (frames1 frames2 : list Frame) (st : Loop) :
  fst (loop (frames1 ++ frames2) st) = fst (loop frames2 (fst (loop frames1 st))).
Proof.
  rewrite video_loop_app.
  pose proof (video_loop_returns model blur_kernel confidence_threshold
                detection_interval width height frame_count video_name
                interval_nonzero frames1 st) as Hret.
  destruct (loop frames1 st) as [st' res]. simpl in Hret. subst res.
  reflexivity.
Qed.

(** Frames whose numbers are no multiples of the interval are blurred with
    the boxes already cached, and leave them as they are. *)
Lemma loop_without_detection (frames : list Frame) (st : Loop) :
  (forall k, 1 <= k <= Z.of_nat (length frames) ->
             ~ (detection_interval | frame_number st + k)) ->
  last_known_faces (fst (loop frames st)) = last_known_faces st /\
  model_calls (fst (loop frames st)) = model_calls st /\
  written (fst (loop frames st)) =
    written st ++
    map (blur_faces width height blur_kernel (last_known_faces st)) frames.
Proof.
  revert st. induction frames as [| frame frames IH]; intros st Hno.
  - simpl. rewrite app_nil_r. auto.
  - rewrite video_loop_cons.
    assert (Hstep : ((frame_number st + 1) mod detection_interval =? 0) = false).
    { apply Z.eqb_neq. intros Hz.
      apply (Hno 1); [simpl length; lia |].
      apply Z.mod_divide; assumption. }
    pose proof (video_frame_faces model blur_kernel confidence_threshold
                  detection_interval width height frame_count video_name
                  interval_nonzero st frame) as Hfaces.
    pose proof (video_frame_calls model blur_kernel confidence_threshold
                  detection_interval width height frame_count video_name
                  interval_nonzero st frame) as Hcalls.
    pose proof (video_frame_written model blur_kernel confidence_threshold
                  detection_interval width height frame_count video_name
                  interval_nonzero st frame) as Hwritten.
    pose proof (video_frame_number model blur_kernel confidence_threshold
                  detection_interval width height frame_count video_name
                  interval_nonzero st frame) as Hnumber.
    rewrite Hstep in Hfaces, Hcalls. rewrite Hfaces in Hwritten.
    destruct (IH (fst (step st frame))) as (IHf & IHc & IHw).
    { intros k Hk. rewrite Hnumber.
      replace (frame_number st + 1 + k) with (frame_number st + (k + 1)) by lia.
      apply Hno. simpl length. lia. }
    rewrite IHf, IHc, IHw, Hfaces, Hcalls, Hwritten.
    simpl. rewrite <- app_assoc. auto.
Qed.

(** The state after a frame whose number is a multiple of the interval. *)
Lemma loop_at_detection (pre : list Frame) (frame : Frame) :
  (detection_interval | Z.of_nat (length pre) + 1) ->
  frame_number (run (pre ++ [frame])) = Z.of_nat (length pre) + 1 /\
  last_known_faces (run (pre ++ [frame])) =
    boxes_passing confidence_threshold (model frame).
Proof.
  intros Hdiv.
  rewrite video_loop_snoc by exact interval_nonzero.
  rewrite video_frame_number, video_frame_faces by exact interval_nonzero.
  rewrite video_loop_frame_number by exact interval_nonzero.
  split; [reflexivity |].
  apply Z.mod_divide in Hdiv; [| exact interval_nonzero].
  simpl frame_number. rewrite Z.add_0_l, Hdiv. simpl.
  apply detect_faces_boxes_passing.
Qed.

(** C9: with a detection interval other than zero, what a detection frame
    stores is the list of the detector's boxes that pass the comparison of
    line 133, corners truncated to integers and not clamped; the frames up
    to the next multiple of the interval leave that list as it is, and each
    of them is blurred at the corners clamped for that frame only. *)
Theorem cache_keeps_detector_boxes (pre mid : list Frame) (frame : Frame) :
  (detection_interval | Z.of_nat (length pre) + 1) ->
  (forall k, 1 <= k <= Z.of_nat (length mid) ->
             ~ (detection_interval | Z.of_nat (length pre) + 1 + k)) ->
  let faces := boxes_passing confidence_threshold (model frame) in
  last_known_faces (run (pre ++ [frame])) = faces /\
  last_known_faces (run (pre ++ frame :: mid)) = faces /\
  written (run (pre ++ frame :: mid)) =
    written (run pre) ++
    map (fun f =>
           fold_left
             (fun f b => blur_roi blur_kernel f (clamp width height b))
             faces f)
        (frame :: mid).
Proof.
  intros Hdiv Hno faces.
  destruct (loop_at_detection pre frame Hdiv) as [Hnum Hfaces].
  split; [exact Hfaces |].
  replace (pre ++ frame :: mid) with ((pre ++ [frame]) ++ mid)
    by (rewrite <- app_assoc; reflexivity).
  rewrite video_loop_run_app.
  destruct (loop_without_detection mid (run (pre ++ [frame]))) as (Hf & _ & Hw).
  { intros k Hk. rewrite Hnum. apply Hno. exact Hk. }
  rewrite Hf, Hw, Hfaces. split; [reflexivity |].
  rewrite video_loop_snoc by exact interval_nonzero.
  rewrite video_frame_written by exact interval_nonzero.
  rewrite <- video_loop_snoc by exact interval_nonzero.
  rewrite Hfaces. rewrite <- app_assoc. reflexivity.
Qed.

(** The frames written are the frames read, one for one and in their order,
    each blurred at some boxes. *)
Lemma written_frames (frames : list Frame) (st : Loop) :
  exists outs,
    written (fst (loop frames st)) = written st ++ outs /\
    Forall2
      (fun src out =>
         exists faces, out = blur_faces width height blur_kernel faces src)
      frames outs.
Proof.
  revert st. induction frames as [| frame frames IH]; intros st.
  - exists []. simpl. rewrite app_nil_r. split; [reflexivity | constructor].
  - rewrite video_loop_cons.
    destruct (IH (fst (step st frame))) as (outs & Hw & Hall).
    rewrite video_frame_written in Hw by exact interval_nonzero.
    eexists (_ :: outs). split.
    + rewrite Hw, <- app_assoc. reflexivity.
    + constructor; [eexists; reflexivity | exact Hall].
Qed.

End VideoCache.

(** ** Detection on every frame *)

Section EveryFrame.
Context `{Ext : Externals}.
Variables (model : Model) (blur_kernel : Kernel) (confidence_threshold : Q).
Variables (width height frame_count : Z).
Variable video_name : string.

Local Abbreviation loop1 :=
  (video_loop model blur_kernel confidence_threshold 1
     width height frame_count video_name).

Lemma interval_one_frame (st : Loop) (frame : Frame) :
  frame_width frame = width -> frame_height frame = height ->
  written
    (fst (video_frame model blur_kernel confidence_threshold 1
            width height frame_count video_name st frame)) =
  written st ++ [blur_image_frame model blur_kernel confidence_threshold frame].
Proof.
  intros Hw Hh.
  rewrite video_frame_written, video_frame_faces by discriminate.
  rewrite Z.mod_1_r. simpl.
  rewrite blur_image_frame_boxes_passing, detect_faces_boxes_passing, Hw, Hh.
  reflexivity.
Qed.

(** C3: with [detection_interval = 1], and frames of the dimensions the
    capture announces, the loop returns and the frame written for each frame
    read is the one lines 43-61 of the image pipeline make of it. *)
Theorem interval_one_as_images (frames : list Frame) :
  Forall (fun f => frame_width f = width /\ frame_height f = height) frames ->
  snd (loop1 frames loop_start) = Returned /\
  written (fst (loop1 frames loop_start)) =
    map (blur_image_frame model blur_kernel confidence_threshold) frames.
Proof.
  intros Hdims. split; [apply video_loop_returns; discriminate |].
  induction frames as [| frame frames IH] using rev_ind; [reflexivity |].
  apply Forall_app in Hdims. destruct Hdims as [Hpre Hlast].
  apply Forall_cons in Hlast. destruct Hlast as [[Hw Hh] _].
  rewrite video_loop_snoc by discriminate.
  rewrite interval_one_frame by assumption.
  rewrite IH by exact Hpre. rewrite map_app. reflexivity.
Qed.

End EveryFrame.

(** ** Files *)

Section Files.
Context `{Ext : Externals}.
Variables (model : Model) (output_dir : string).
Variables (blur_kernel : Kernel) (confidence_threshold : Q).

Lemma files_print (w : World) (m : Msg) : files (print w m) = files w.
Proof. reflexivity. Qed.

Lemma files_ensure_output_dir (w : World) :
  files (ensure_output_dir w output_dir) = files w.
Proof. unfold ensure_output_dir. destruct (negb _); reflexivity. Qed.

Lemma console_ensure_output_dir (w : World) :
  console (ensure_output_dir w output_dir) =
  console w ++
    (if path_exists w output_dir then [] else [MsgDirCreated output_dir]).
Proof.
  unfold ensure_output_dir.
  destruct (path_exists w output_dir); simpl; [rewrite app_nil_r |]; reflexivity.
Qed.

Lemma dirs_ensure_output_dir (w : World) :
  dirs (ensure_output_dir w output_dir) =
  if path_exists w output_dir then dirs w else {[output_dir]} ∪ dirs w.
Proof.
  unfold ensure_output_dir. destruct (path_exists w output_dir); reflexivity.
Qed.

Lemma path_exists_file (w : World) (p : string) (b : Blob) :
  files w !! p = Some b -> path_exists w p = true.
Proof.
  intros Hp. unfold path_exists. rewrite Hp.
  rewrite bool_decide_eq_true_2 by eauto. reflexivity.
Qed.

Lemma cv2_imread_exists (w : World) (p : string) (frame : Frame) :
  cv2_imread w p = Some frame -> path_exists w p = true.
Proof.
  unfold cv2_imread. intros Hread.
  destruct (files w !! p) as [b |] eqn:Hp; [| discriminate].
  eapply path_exists_file. exact Hp.
Qed.

(** Lines 30-64 for an image that is read. *)
Lemma process_image_read (w : World) (image_path : string) (frame : Frame) :
  cv2_imread w image_path = Some frame ->
  process_image model output_dir blur_kernel confidence_threshold w image_path =
  let output_path := output_path_of output_dir image_path in
  {| files :=
       <[output_path :=
           imencode output_path
             (blur_image_frame model blur_kernel confidence_threshold frame)]>
         (files w);
     dirs := dirs w;
     console := console w ++ [MsgProcessing (basename image_path);
                              MsgDone (basename image_path) output_path] |}.
Proof.
  intros Hread. unfold process_image.
  rewrite (cv2_imread_exists _ _ _ Hread). simpl negb. cbv iota.
  unfold cv2_imread in *. simpl files. rewrite Hread.
  unfold print, cv2_imwrite, write_file, output_path_of. simpl.
  rewrite <- app_assoc. reflexivity.
Qed.

(** C4: when the model fails to load, either pipeline prints the error and
    returns at once: no path of the list is looked at, the files on disk are
    the files found, and the console holds nothing after the error. Only
    the output directory has been created before, when it was absent. *)
Theorem model_load_failure_aborts (paths : list string)
    (detection_interval : Z) (w : World) (e : exn) :
  YOLO (files w !! weights) = inl e ->
  let w' := print (ensure_output_dir w output_dir) (MsgModelError e) in
  blur_faces_in_images paths output_dir blur_kernel confidence_threshold w = w' /\
  blur_faces_in_videos paths output_dir blur_kernel confidence_threshold
    detection_interval w = (w', Returned) /\
  files w' = files w /\
  dirs w' = (if path_exists w output_dir then dirs w else {[output_dir]} ∪ dirs w) /\
  console w' =
    console w ++
    (if path_exists w output_dir then [] else [MsgDirCreated output_dir]) ++
    [MsgModelError e].
Proof.
  intros Hload w'.
  unfold blur_faces_in_images, blur_faces_in_videos.
  rewrite files_ensure_output_dir, Hload.
  repeat split.
  - unfold w'. rewrite files_print. apply files_ensure_output_dir.
  - unfold w'. simpl. apply dirs_ensure_output_dir.
  - unfold w'. simpl. rewrite console_ensure_output_dir, <- app_assoc. reflexivity.
Qed.

End Files.

(** ** The threshold *)

Section Threshold.
Context `{Ext : Externals}.
Variables (blur_kernel : Kernel) (confidence_threshold : Q).

Lemma above_true_iff (d : Detection) :
  above confidence_threshold d = true <-> (confidence_threshold < conf d)%Q.
Proof. rewrite <- gt_above. apply gt_true_iff. Qed.

Lemma passes_false_of_not_above (d : Detection) :
  ~ (confidence_threshold < conf d)%Q -> passes confidence_threshold d = false.
Proof.
  intros Hnot. destruct (passes confidence_threshold d) eqn:Hp; [| reflexivity].
  exfalso. apply Hnot. apply conf_gt_above. exact Hp.
Qed.

Lemma boxes_passing_none (results : list (list Detection)) :
  (forall r d, In r results -> In d r -> ~ (confidence_threshold < conf d)%Q) ->
  boxes_passing confidence_threshold results = [].
Proof.
  induction results as [| r results IH]; intros Hnone; [reflexivity |].
  rewrite boxes_passing_cons, IH.
  - rewrite app_nil_r.
    assert (Hr : forall d, In d r -> ~ (confidence_threshold < conf d)%Q).
    { intros d Hd. apply (Hnone r d); [left; reflexivity | exact Hd]. }
    clear -Hr. induction r as [| d r IHr]; [reflexivity |].
    rewrite filter_cons, decide_False.
    + apply IHr. intros d' Hd'. apply Hr. right. exact Hd'.
    + rewrite passes_false_of_not_above; [discriminate |].
      apply Hr. left. reflexivity.
  - intros r' d Hr' Hd. apply (Hnone r' d); [right; exact Hr' | exact Hd].
Qed.



(** C7: an image for which the detector reports no box strictly above the
    threshold goes through lines 43-61 unchanged, and the frame encoded into
    the output file is the frame decoded from the input file. *)
Theorem image_without_faces_unchanged (model : Model) (output_dir : string)
    (w : World) (image_path : string) (frame : Frame) :
  cv2_imread w image_path = Some frame ->
  (forall r d, In r (model frame) -> In d r ->
               ~ (confidence_threshold < conf d)%Q) ->
  blur_image_frame model blur_kernel confidence_threshold frame = frame /\
  files (process_image model output_dir blur_kernel confidence_threshold
           w image_path)
    !! output_path_of output_dir image_path =
  Some (imencode (output_path_of output_dir image_path) frame).
Proof.
  intros Hread Hnone.
  assert (Hsame :
    blur_image_frame model blur_kernel confidence_threshold frame = frame).
  { rewrite blur_image_frame_boxes_passing, boxes_passing_none by exact Hnone.
    reflexivity. }
  split; [exact Hsame |].
  rewrite (process_image_read _ _ _ _ _ _ _ Hread). simpl.
  rewrite Hsame. apply lookup_insert_eq.
Qed.

End Threshold.

(** ** The output stream of a video *)

Section VideoOutput.
Context `{Ext : Externals}.
Variables (model : Model) (output_dir : string).
Variables (blur_kernel : Kernel) (confidence_threshold : Q).
Variable detection_interval : Z.

(** Lines 95-150 for a video that opens, with an interval other than zero. *)
Lemma process_video_opened (w : World) (video_path : string) (b : Blob)
    (cap : Video Pixel) :
  detection_interval <> 0 ->
  files w !! video_path = Some b ->
  VideoCapture b = Some cap ->
  let output_path := output_path_of output_dir video_path in
  let width := int (CAP_PROP_FRAME_WIDTH cap) in
  let height := int (CAP_PROP_FRAME_HEIGHT cap) in
  let st :=
    fst (video_loop model blur_kernel confidence_threshold detection_interval
           width height (int (CAP_PROP_FRAME_COUNT cap)) (basename video_path)
           (stream cap) loop_start) in
  process_video model output_dir blur_kernel confidence_threshold
    detection_interval w video_path =
  ({| files :=
        <[output_path :=
            VideoWriter output_path fourcc_mp4v (int (CAP_PROP_FPS cap))
              (width, height) (written st)]> (files w);
      dirs := dirs w;
      console :=
        (console w ++ [MsgProcessing (basename video_path)]) ++ printed st ++
        [MsgDone (basename video_path) output_path] |}, Returned).
Proof.
  intros Hd Hfile Hopen. unfold process_video.
  rewrite (path_exists_file _ _ _ Hfile). simpl negb. cbv iota.
  simpl files. rewrite Hfile. simpl. rewrite Hopen.
  pose proof (video_loop_returns model blur_kernel confidence_threshold
                detection_interval (int (CAP_PROP_FRAME_WIDTH cap))
                (int (CAP_PROP_FRAME_HEIGHT cap))
                (int (CAP_PROP_FRAME_COUNT cap)) (basename video_path)
                Hd (stream cap) loop_start) as Hret.
  destruct (video_loop _ _ _ _ _ _ _ _ _ _) as [st res].
  simpl in Hret. subst res. simpl.
  unfold print, output_path_of. simpl. rewrite <- app_assoc. reflexivity.
Qed.

(** C5, as the code has it: with a detection interval other than zero and
    the output directory there, the output of a video that opens and whose
    frame rate is one frame a second at least, so that the rate handed to
    the writer is not zero, is written with the frame rate of the source
    truncated to an integer, with the width and the height of the source as
    integers, and with one frame for each frame read, in the order read,
    each being the frame read blurred at some boxes. *)
Theorem video_output_stream (w : World) (video_path : string) (b : Blob)
    (cap : Video Pixel) :
  detection_interval <> 0 ->
  output_dir_present w output_dir ->
  files w !! video_path = Some b ->
  VideoCapture b = Some cap ->
  1 <= int (CAP_PROP_FPS cap) ->
  let output_path := output_path_of output_dir video_path in
  let width := int (CAP_PROP_FRAME_WIDTH cap) in
  let height := int (CAP_PROP_FRAME_HEIGHT cap) in
  exists (w' : World) (outs : list Frame),
    process_video model output_dir blur_kernel confidence_threshold
      detection_interval w video_path = (w', Returned) /\
    files w' !! output_path =
      Some (VideoWriter output_path fourcc_mp4v (int (CAP_PROP_FPS cap))
              (width, height) outs) /\
    length outs = length (stream cap) /\
    Forall2
      (fun src out =>
         exists faces, out = blur_faces width height blur_kernel faces src)
      (stream cap) outs.
Proof.
  intros Hd _ Hfile Hopen _ output_path width height.
  destruct (written_frames model blur_kernel confidence_threshold
              detection_interval width height
              (int (CAP_PROP_FRAME_COUNT cap)) (basename video_path) Hd
              (stream cap) loop_start) as (outs & Hw & Hall).
  simpl in Hw.
  eexists. exists outs. split.
  - apply (process_video_opened w video_path b cap Hd Hfile Hopen).
  - simpl. rewrite lookup_insert_eq. fold width height. rewrite Hw.
    split; [reflexivity |]. split; [| exact Hall].
    symmetry. eapply Forall2_length. exact Hall.
Qed.

End VideoOutput.

(** ** Output paths *)

Lemma has_sep_basename (p : string) : has_sep (basename p) = false.
Proof.
  induction p as [| c r IH]; [reflexivity |]. simpl.
  destruct (has_sep r) eqn:Hr; [exact IH |].
  destruct (Ascii.eqb c sep) eqn:Hc; [exact Hr |].
  simpl. rewrite Hc. exact Hr.
Qed.

Lemma basename_without_sep (s : string) : has_sep s = false -> basename s = s.
Proof.
  destruct s as [| c r]; [reflexivity |]. simpl.
  destruct (Ascii.eqb c sep); [discriminate |].
  intros Hr. rewrite Hr. reflexivity.
Qed.

Lemma append_nil (s : string) : EmptyString +:+ s = s.
Proof. reflexivity. Qed.

Lemma append_cons (c : ascii) (a s : string) :
  String c a +:+ s = String c (a +:+ s).
Proof. reflexivity. Qed.

Lemma append_assoc (a b c : string) : (a +:+ b) +:+ c = a +:+ (b +:+ c).
Proof.
  induction a as [| x a IH]; [reflexivity |].
  rewrite !append_cons, IH. reflexivity.
Qed.

Lemma has_sep_app_sep (a s : string) : has_sep (a +:+ String sep s) = true.
Proof.
  induction a as [| c r IH]; [reflexivity |].
  rewrite append_cons. simpl.
  destruct (Ascii.eqb c sep); [reflexivity | exact IH].
Qed.

Lemma basename_app_sep (a s : string) :
  has_sep s = false -> basename (a +:+ String sep s) = s.
Proof.
  intros Hs. induction a as [| c r IH].
  - rewrite append_nil. simpl. rewrite Hs. reflexivity.
  - rewrite append_cons. simpl. rewrite has_sep_app_sep. exact IH.
Qed.

Lemma endswith_sep_split (a : string) :
  endswith_sep a = true -> exists a', a = a' +:+ String sep EmptyString.
Proof.
  induction a as [| c r IH]; [discriminate |]. simpl.
  destruct r as [| c' r'].
  - intros Hc. apply Ascii.eqb_eq in Hc. subst c. exists EmptyString. reflexivity.
  - intros Hr. destruct (IH Hr) as [a' Ha']. exists (String c a').
    rewrite append_cons, <- Ha'. reflexivity.
Qed.

Lemma startswith_sep_has_sep (s : string) :
  has_sep s = false -> startswith_sep s = false.
Proof.
  destruct s as [| c r]; [reflexivity |]. simpl.
  destruct (Ascii.eqb c sep); [discriminate | reflexivity].
Qed.

(** The last component of a joined path is the name joined. *)
Lemma basename_join (a s : string) :
  has_sep s = false -> basename (join a s) = s.
Proof.
  intros Hs. unfold join. rewrite (startswith_sep_has_sep s Hs).
  destruct (String.eqb_spec a EmptyString) as [-> | Hne].
  - simpl. rewrite append_nil. apply basename_without_sep. exact Hs.
  - simpl. destruct (endswith_sep a) eqn:Hend.
    + destruct (endswith_sep_split a Hend) as [a' ->].
      rewrite append_assoc, append_cons, append_nil.
      apply basename_app_sep. exact Hs.
    + apply basename_app_sep. exact Hs.
Qed.

Lemma length_blurred (s : string) :
  String.length ("blurred_" +:+ s) = S (S (S (S (S (S (S (S (String.length s)))))))).
Proof. reflexivity. Qed.

Lemma blurred_name_differs (s : string) : "blurred_" +:+ s <> s.
Proof.
  intros Heq. apply (f_equal String.length) in Heq.
  rewrite length_blurred in Heq. lia.
Qed.

Lemma has_sep_blurred (s : string) : has_sep ("blurred_" +:+ s) = has_sep s.
Proof. reflexivity. Qed.

Lemma basename_output_path_of (output_dir path : string) :
  basename (output_path_of output_dir path) = "blurred_" +:+ basename path.
Proof.
  unfold output_path_of. apply basename_join.
  rewrite has_sep_blurred. apply has_sep_basename.
Qed.

(** No input of a given last component is the output of an input of the
    same last component. *)
Lemma output_path_of_fresh (output_dir p1 p2 : string) :
  basename p1 = basename p2 -> output_path_of output_dir p1 <> p2.
Proof.
  intros Hname Heq. apply (f_equal basename) in Heq.
  rewrite basename_output_path_of, Hname in Heq.
  exact (blurred_name_differs _ Heq).
Qed.

Lemma outputs_done_app (lines1 lines2 : list Msg) :
  outputs_done (lines1 ++ lines2) = outputs_done lines1 ++ outputs_done lines2.
Proof. unfold outputs_done. rewrite map_app, concat_app. reflexivity. Qed.

Section Overwriting.
Context `{Ext : Externals}.
Variables (model : Model) (output_dir : string).
Variables (blur_kernel : Kernel) (confidence_threshold : Q).

(** The lines printed inside the loop over the frames report no output. *)
Lemma outputs_done_video_frame (detection_interval width height frame_count : Z)
    (video_name : string) (st : Loop) (frame : Frame) :
  outputs_done
    (printed (fst (video_frame model blur_kernel confidence_threshold
                     detection_interval width height frame_count video_name
                     st frame))) =
  outputs_done (printed st).
Proof.
  unfold video_frame.
  destruct (detection_interval =? 0); simpl;
    destruct ((frame_number st + 1) mod 30 =? 0);
    rewrite ?outputs_done_app; simpl; rewrite ?app_nil_r; reflexivity.
Qed.

Lemma outputs_done_video_loop (detection_interval width height frame_count : Z)
    (video_name : string) (frames : list Frame) (st : Loop) :
  outputs_done
    (printed (fst (video_loop model blur_kernel confidence_threshold
                     detection_interval width height frame_count video_name
                     frames st))) =
  outputs_done (printed st).
Proof.
  revert st. induction frames as [| frame frames IH]; intros st; [reflexivity |].
  simpl.
  pose proof (outputs_done_video_frame detection_interval width height
                frame_count video_name st frame) as Hstep.
  destruct (video_frame _ _ _ _ _ _ _ _ _ _) as [st' [| e]]; simpl in Hstep.
  - rewrite IH. exact Hstep.
  - exact Hstep.
Qed.

(** Making the output directory reports no output. *)
Lemma outputs_done_ensure_output_dir (w : World) :
  outputs_done (console (ensure_output_dir w output_dir)) =
  outputs_done (console w).
Proof.
  unfold ensure_output_dir.
  destruct (negb (path_exists w output_dir)); simpl; [| reflexivity].
  rewrite outputs_done_app. simpl. apply app_nil_r.
Qed.

End Overwriting.

(** * The small instance at work *)

Example int_truncates :
  int (- 5 # 2) = -2 /\ int (19 # 2) = 9 /\ int (4 # 1) = 4 /\ int (30000 # 1001) = 29.
Proof. repeat split. Qed.

Example gt_is_strict :
  gt (1 # 2) (1 # 2) = false /\ gt (2 # 4) (1 # 2) = false /\
  gt (9 # 10) (1 # 2) = true /\ gt (1 # 2) (9 # 10) = false.
Proof. repeat split. Qed.

Example slice_examples :
  slice 1 3 [1; 2; 3; 4] = [2; 3] /\
  slice 0 (-1) [1; 2; 3; 4] = [1; 2; 3] /\
  slice 3 2 [1; 2; 3; 4] = [] /\
  slice 2 9 [1; 2; 3; 4] = [3; 4] /\
  slice 7 4 [1; 2; 3; 4] = [].
Proof. repeat split. Qed.

Example path_examples :
  basename "in/a/x.png" = "x.png" /\
  basename "x.png" = "x.png" /\
  basename "in/a/" = EmptyString /\
  join "out" "blurred_x.png" = "out/blurred_x.png" /\
  join "out/" "blurred_x.png" = "out/blurred_x.png" /\
  join EmptyString "blurred_x.png" = "blurred_x.png" /\
  output_path_of "out" "in/a/x.png" = "out/blurred_x.png".
Proof. repeat split. Qed.

Example ex_boxes :
  map int_box (concat ex_results) = [(-2, 1, 2, 9); (0, 0, 1, 1)] /\
  boxes_above (1 # 2) ex_results = [(-2, 1, 2, 9)] /\
  clamp 4 4 (-2, 1, 2, 9) = (0, 1, 2, 4).
Proof. repeat split. Qed.

Example ex_blur_box :
  blur_box (Ext := ex_externals) 4 4 (51, 51) ex_frame_a (-2, 1, 2, 9) =
  [[10; 20; 30; 40]; [95; 95; 70; 80]; [95; 95; 110; 120]; [95; 95; 150; 160]].
Proof. vm_compute. reflexivity. Qed.

(** A box wholly left of and above the frame keeps negative right and bottom
    corners after the clamp; as bounds of a slice they count from the end,
    and all but the last row and column is blurred. *)
Example ex_blur_box_outside :
  blur_box (Ext := ex_externals) 4 4 (51, 51) ex_frame_a (-10, -10, -1, -1) =
  [[60; 60; 60; 40]; [60; 60; 60; 80]; [60; 60; 60; 120]; [130; 140; 150; 160]].
Proof. vm_compute. reflexivity. Qed.

(** C1 on two frames with an interval of two: the second frame is detected
    on, and the cache is the one box above one half. *)
Lemma cache_transition_witness :
  let st :=
    fst (video_loop (Ext := ex_externals) ex_model (51, 51) (1 # 2) 2 4 4 3
           "v.mp4" [ex_frame_a; ex_frame_b] loop_start) in
  2 <> 0 /\ (2 | 2) /\
  frame_number st = 2 /\
  last_known_faces st = [(-2, 1, 2, 9)] /\
  model_calls st = [ex_frame_b].
Proof.
  assert (Hd : 2 <> 0) by discriminate.
  assert (Hdiv : (2 | 2)) by (exists 1; reflexivity).
  destruct (cache_transition (Ext := ex_externals) ex_model (51, 51) (1 # 2)
              2 4 4 3 "v.mp4" [ex_frame_a] ex_frame_b Hd)
    as (_ & Hn & Hdet & _).
  destruct (Hdet Hdiv) as (Hfaces & _ & Hcalls).
  cbv zeta. split; [exact Hd |]. split; [exact Hdiv |].
  split; [exact Hn |]. split; [exact Hfaces | exact Hcalls].
Defined.

(** C1, as stated, fails on which boxes enter the cache. The detector
    reports a face whose confidence is the float32 nearest to 0.6 and the
    threshold is the Python float 0.6, which is smaller: the confidence is
    strictly above the threshold, and the comparison of line 133, made
    after the threshold is rounded to float32, does not let the box
    through. The frame is detected on and the cache is left empty. *)
Lemma cache_misses_box_above :
  let st :=
    fst (video_loop (Ext := ex_externals) ex_model_edge (51, 51)
           ex_threshold_edge 1 4 4 1 "v.mp4" [ex_frame_a] loop_start) in
  frame_number st = 1 /\ (1 | frame_number st) /\
  model_calls st = [ex_frame_a] /\
  (ex_threshold_edge < ex_conf_edge)%Q /\
  boxes_above ex_threshold_edge (ex_model_edge ex_frame_a) = [(0, 0, 2, 2)] /\
  last_known_faces st = [] /\
  last_known_faces st <>
    boxes_above ex_threshold_edge (ex_model_edge ex_frame_a).
Proof.
  cbv zeta.
  split; [reflexivity |]. split; [exists 1; reflexivity |].
  split; [reflexivity |]. split; [reflexivity |].
  split; [reflexivity |]. split; [reflexivity |].
  vm_compute. discriminate.
Qed.

(** C3 on two frames of four by four pixels. *)
Lemma interval_one_as_images_witness :
  Forall (fun f => frame_width (Ext := ex_externals) f = 4 /\
                   frame_height (Ext := ex_externals) f = 4)
    [ex_frame_a; ex_frame_b] /\
  written
    (fst (video_loop (Ext := ex_externals) ex_model (51, 51) (1 # 2) 1 4 4 2
            "v.mp4" [ex_frame_a; ex_frame_b] loop_start)) =
  [blur_image_frame (Ext := ex_externals) ex_model (51, 51) (1 # 2) ex_frame_a;
   blur_image_frame (Ext := ex_externals) ex_model (51, 51) (1 # 2) ex_frame_b].
Proof.
  assert (Hdims :
    Forall (fun f => frame_width (Ext := ex_externals) f = 4 /\
                     frame_height (Ext := ex_externals) f = 4)
      [ex_frame_a; ex_frame_b]).
  { repeat constructor. }
  split; [exact Hdims |].
  exact (proj2 (interval_one_as_images (Ext := ex_externals) ex_model (51, 51)
                  (1 # 2) 4 4 2 "v.mp4" [ex_frame_a; ex_frame_b] Hdims)).
Defined.

(** C4 on a disk without the weights. *)
Lemma model_load_failure_aborts_witness :
  YOLO (Externals := ex_externals) (files ex_world_bare !! weights) =
    inl (LoadError "no weights") /\
  files (blur_faces_in_images (Ext := ex_externals)
           ["in/a/x.png"; "in/b/x.png"] "out" (51, 51) (1 # 2) ex_world_bare) =
    files ex_world_bare /\
  console (fst (blur_faces_in_videos (Ext := ex_externals)
                  ["in/a/v.mp4"] "out" (51, 51) (1 # 2) 5 ex_world_bare)) =
    [MsgDirCreated "out"; MsgModelError (LoadError "no weights")].
Proof.
  assert (Hload :
    YOLO (Externals := ex_externals) (files ex_world_bare !! weights) =
      inl (LoadError "no weights")) by reflexivity.
  destruct (model_load_failure_aborts (Ext := ex_externals) "out" (51, 51)
              (1 # 2) ["in/a/x.png"; "in/b/x.png"] 5 ex_world_bare _ Hload)
    as (Himg & _ & Hfiles & _ & _).
  destruct (model_load_failure_aborts (Ext := ex_externals) "out" (51, 51)
              (1 # 2) ["in/a/v.mp4"] 5 ex_world_bare _ Hload)
    as (_ & Hvid & _ & _ & Hconsole).
  split; [exact Hload |]. split.
  - rewrite Himg. exact Hfiles.
  - rewrite Hvid. exact Hconsole.
Defined.

(** C5 on the video of three frames at 29.97 frames a second. *)
Lemma video_output_stream_witness :
  exists (w' : World (Ext := ex_externals)) (outs : list (list (list Z))),
    process_video (Ext := ex_externals) ex_model "out" (51, 51) (1 # 2) 5
      ex_world_out "in/a/v.mp4" = (w', Returned) /\
    files w' !! "out/blurred_v.mp4" =
      Some (VideoWriter (Externals := ex_externals) "out/blurred_v.mp4"
              fourcc_mp4v 29 (4, 4) outs) /\
    length outs = 3%nat.
Proof.
  assert (Hd : 5 <> 0) by discriminate.
  assert (Hdir : output_dir_present (Ext := ex_externals) ex_world_out "out").
  { split; [discriminate |].
    split; [apply (bool_decide_unpack _); vm_compute; exact I | reflexivity]. }
  assert (Hfile : files ex_world_out !! "in/a/v.mp4" = Some (ExVideo ex_video))
    by reflexivity.
  assert (Hopen :
    VideoCapture (Externals := ex_externals) (ExVideo ex_video) = Some ex_video)
    by reflexivity.
  assert (Hfps : 1 <= int (CAP_PROP_FPS ex_video)) by (vm_compute; discriminate).
  destruct (video_output_stream (Ext := ex_externals) ex_model "out" (51, 51)
              (1 # 2) 5 ex_world_out "in/a/v.mp4" _ _ Hd Hdir Hfile Hopen Hfps)
    as (w' & outs & Hrun & Hout & Hlen & _).
  exists w', outs. split; [exact Hrun |]. split; [exact Hout | exact Hlen].
Defined.

(** C5, as stated, fails on the frame rate: the output of a video at
    30000/1001 frames a second is written at 29 frames a second. *)
Lemma video_frame_rate_differs :
  exists cap' : Video Z,
    snd (process_video (Ext := ex_externals) ex_model "out" (51, 51) (1 # 2) 5
           ex_world_out "in/a/v.mp4") = Returned /\
    files (fst (process_video (Ext := ex_externals) ex_model "out" (51, 51)
                  (1 # 2) 5 ex_world_out "in/a/v.mp4"))
      !! "out/blurred_v.mp4" ≫= VideoCapture (Externals := ex_externals) =
      Some cap' /\
    length (stream cap') = length (stream ex_video) /\
    CAP_PROP_FPS cap' = 29 # 1 /\
    ~ (CAP_PROP_FPS cap' == CAP_PROP_FPS ex_video)%Q.
Proof.
  eexists. split; [vm_compute; reflexivity |].
  split; [vm_compute; reflexivity |].
  split; [reflexivity |]. split; [reflexivity |].
  unfold Qeq. simpl. discriminate.
Qed.


(** C7 with a threshold no face of the detection exceeds. *)
Lemma image_without_faces_unchanged_witness :
  cv2_imread (Ext := ex_externals) ex_world "in/a/x.png" = Some ex_frame_a /\
  blur_image_frame (Ext := ex_externals) ex_model (51, 51) (19 # 20) ex_frame_a =
    ex_frame_a /\
  files (process_image (Ext := ex_externals) ex_model "out" (51, 51) (19 # 20)
           ex_world "in/a/x.png") !! "out/blurred_x.png" =
    Some (ExImage ex_frame_a).
Proof.
  assert (Hread :
    cv2_imread (Ext := ex_externals) ex_world "in/a/x.png" = Some ex_frame_a)
    by reflexivity.
  assert (Hnone : forall r d,
    In r (ex_model ex_frame_a) -> In d r -> ~ (19 # 20 < conf d)%Q).
  { intros r d [<- | []] [<- | [<- | []]]; unfold Qlt; simpl; lia. }
  destruct (image_without_faces_unchanged (Ext := ex_externals) (51, 51)
              (19 # 20) ex_model "out" ex_world "in/a/x.png" ex_frame_a
              Hread Hnone) as [Hsame Hout].
  split; [exact Hread |]. split; [exact Hsame | exact Hout].
Defined.

(** C9 on three frames with an interval of two: the box detected on the
    second frame reaches out of the frame, and is still cached with the
    corners of the detector after the third. *)
Lemma cache_keeps_detector_boxes_witness :
  let st :=
    fst (video_loop (Ext := ex_externals) ex_model (51, 51) (1 # 2) 2 4 4 3
           "v.mp4" [ex_frame_a; ex_frame_b; ex_frame_a] loop_start) in
  2 <> 0 /\ (2 | 2) /\ ~ (2 | 3) /\
  last_known_faces st = [(-2, 1, 2, 9)] /\
  clamp 4 4 (-2, 1, 2, 9) = (0, 1, 2, 4).
Proof.
  assert (Hd : 2 <> 0) by discriminate.
  assert (Hdiv : (2 | Z.of_nat (length [ex_frame_a]) + 1))
    by (exists 1; reflexivity).
  assert (Hno : forall k, 1 <= k <= Z.of_nat (length [ex_frame_a]) ->
                          ~ (2 | Z.of_nat (length [ex_frame_a]) + 1 + k)).
  { intros k Hk [q Hq]. simpl in Hk, Hq. lia. }
  destruct (cache_keeps_detector_boxes (Ext := ex_externals) ex_model (51, 51)
              (1 # 2) 2 4 4 3 "v.mp4" Hd [ex_frame_a] [ex_frame_a] ex_frame_b
              Hdiv Hno) as (_ & Hfaces & _).
  cbv zeta. split; [exact Hd |]. split; [exact Hdiv |].
  split; [intros [q Hq]; lia |]. split; [exact Hfaces | reflexivity].
Defined.

(** With an interval of zero the division of line 128 raises on the first
    frame read, and nothing is handed to the writer. *)
Lemma zero_interval_raises `{Ext : Externals} (model : Model)
    (blur_kernel : Kernel) (confidence_threshold : Q)
    (width height frame_count : Z) (video_name : string)
    (frame : Frame) (frames : list Frame) :
  let res :=
    video_loop model blur_kernel confidence_threshold 0 width height
      frame_count video_name (frame :: frames) loop_start in
  snd res = Raised ZeroDivisionError /\ written (fst res) = [].
Proof. split; reflexivity. Qed.

(** * Further properties *)

(** ** Slices and regions *)

Lemma slice_index_of_nonneg (n i : Z) :
  0 <= n -> 0 <= i -> slice_index n i = Z.min n i.
Proof.
  intros Hn Hi. unfold slice_index.
  destruct (Z.ltb_spec i 0); lia.
Qed.

Lemma slice_index_range (n i : Z) : 0 <= n -> 0 <= slice_index n i <= n.
Proof. intros Hn. unfold slice_index. destruct (i <? 0); lia. Qed.

Section SliceFacts.
Context {A : Type}.

Lemma assign_slice_length (a b : Z) (upd : nat -> A -> A) (l : list A) :
  length (assign_slice a b upd l) = length l.
Proof. unfold assign_slice. apply length_imap. Qed.

Lemma assign_slice_lookup (a b : Z) (upd : nat -> A -> A) (l : list A) (i : nat) :
  assign_slice a b upd l !! i =
  (fun x =>
     if (slice_index (Z.of_nat (length l)) a <=? Z.of_nat i)
        && (Z.of_nat i <? slice_index (Z.of_nat (length l)) b)
     then upd (i - Z.to_nat (slice_index (Z.of_nat (length l)) a))%nat x
     else x) <$> l !! i.
Proof. unfold assign_slice. apply list_lookup_imap. Qed.

(** Outside [a:b] an assignment to the slice changes nothing. *)
Lemma assign_slice_lookup_outside (a b : Z) (upd : nat -> A -> A)
    (l : list A) (i : nat) :
  0 <= a -> 0 <= b -> ~ (a <= Z.of_nat i < b) ->
  assign_slice a b upd l !! i = l !! i.
Proof.
  intros Ha Hb Hout. rewrite assign_slice_lookup.
  destruct (l !! i) as [x |] eqn:Hx; [| reflexivity]. simpl.
  apply lookup_lt_Some in Hx.
  rewrite !slice_index_of_nonneg by lia.
  destruct (Z.leb_spec (Z.min (Z.of_nat (length l)) a) (Z.of_nat i));
    destruct (Z.ltb_spec (Z.of_nat i) (Z.min (Z.of_nat (length l)) b));
    simpl; try reflexivity.
  exfalso. apply Hout. lia.
Qed.

(** Inside [a:b] the element is the one the assignment gives. *)
Lemma assign_slice_lookup_inside (a b : Z) (upd : nat -> A -> A)
    (l : list A) (i : nat) (x : A) :
  0 <= a -> a <= Z.of_nat i < b -> l !! i = Some x ->
  assign_slice a b upd l !! i = Some (upd (i - Z.to_nat a)%nat x).
Proof.
  intros Ha Hin Hx. rewrite assign_slice_lookup, Hx. simpl.
  apply lookup_lt_Some in Hx.
  rewrite !slice_index_of_nonneg by lia.
  replace (Z.min (Z.of_nat (length l)) a) with a by lia.
  destruct (Z.leb_spec a (Z.of_nat i)); [| lia].
  destruct (Z.ltb_spec (Z.of_nat i) (Z.min (Z.of_nat (length l)) b)); [| lia].
  reflexivity.
Qed.

(** The element of index [i] of [l[a:b]] is the element of index [a + i]
    of [l]. *)
Lemma slice_lookup (a b : Z) (l : list A) (i : nat) :
  0 <= a -> a + Z.of_nat i < b -> (Z.to_nat a + i < length l)%nat ->
  slice a b l !! i = l !! (Z.to_nat a + i)%nat.
Proof.
  intros Ha Hb Hl. unfold slice.
  rewrite !slice_index_of_nonneg by lia.
  rewrite lookup_take_lt by lia.
  rewrite lookup_drop. f_equal. lia.
Qed.

(** A slice whose upper bound is not above its lower bound is empty. *)
Lemma slice_empty (a b : Z) (l : list A) :
  0 <= a -> 0 <= b -> b <= a -> slice a b l = [].
Proof.
  intros Ha Hb Hba. unfold slice.
  rewrite !slice_index_of_nonneg by lia.
  replace (Z.to_nat _) with 0%nat by lia. reflexivity.
Qed.

End SliceFacts.

Section Regions.
Context `{Ext : Externals}.

Lemma set_roi_shape (y1 y2 x1 x2 : Z) (v frame : Frame) :
  map length (set_roi y1 y2 x1 x2 v frame) = map length frame.
Proof.
  unfold set_roi, Frame in *. apply list_eq. intros i.
  rewrite !list_lookup_fmap, assign_slice_lookup.
  destruct (lookup i frame) as [row |]; [| reflexivity]. simpl.
  destruct (_ && _); [| reflexivity].
  rewrite assign_slice_length. reflexivity.
Qed.

Lemma blur_roi_shape (blur_kernel : Kernel) (frame : Frame) (b : Box) :
  map length (blur_roi blur_kernel frame b) = map length frame.
Proof.
  destruct b as [[[x1 y1] x2] y2]. unfold blur_roi.
  destruct (0 <? size _); [apply set_roi_shape | reflexivity].
Qed.

Lemma blur_faces_shape (width height : Z) (blur_kernel : Kernel)
    (faces : list Box) (frame : Frame) :
  map length (blur_faces width height blur_kernel faces frame) = map length frame.
Proof.
  revert frame. induction faces as [| b faces IH]; intros frame; [reflexivity |].
  unfold blur_faces in *. simpl. rewrite IH. apply blur_roi_shape.
Qed.

Lemma set_roi_outside (y1 y2 x1 x2 : Z) (v frame : Frame) (i j : nat) :
  0 <= y1 -> 0 <= y2 -> 0 <= x1 -> 0 <= x2 ->
  ~ (y1 <= Z.of_nat i < y2 /\ x1 <= Z.of_nat j < x2) ->
  pixel_at (set_roi y1 y2 x1 x2 v frame) i j = pixel_at frame i j.
Proof.
  intros Hy1 Hy2 Hx1 Hx2 Hout. unfold pixel_at, set_roi, Frame in *.
  destruct (decide (y1 <= Z.of_nat i < y2)) as [Hrow | Hrow].
  - destruct (lookup i frame) as [row |] eqn:Hi.
    + rewrite (assign_slice_lookup_inside _ _ _ _ _ row) by (lia || exact Hi).
      simpl. apply assign_slice_lookup_outside; [lia | lia |].
      intros Hcol. apply Hout. split; assumption.
    + rewrite assign_slice_lookup, Hi. reflexivity.
  - rewrite assign_slice_lookup_outside by assumption. reflexivity.
Qed.

Lemma set_roi_inside (y1 y2 x1 x2 : Z) (v frame : Frame) (i j : nat) (p : Pixel) :
  0 <= y1 -> 0 <= x1 ->
  y1 <= Z.of_nat i < y2 -> x1 <= Z.of_nat j < x2 ->
  pixel_at frame i j = Some p ->
  pixel_at (set_roi y1 y2 x1 x2 v frame) i j =
  Some (match pixel_at v (i - Z.to_nat y1) (j - Z.to_nat x1) with
        | Some q => q
        | None => p
        end).
Proof.
  intros Hy1 Hx1 Hrow Hcol Hp. unfold pixel_at, set_roi, Frame in *.
  destruct (lookup i frame) as [row |] eqn:Hi; [| discriminate].
  simpl in Hp.
  rewrite (assign_slice_lookup_inside _ _ _ _ _ row) by (lia || exact Hi).
  simpl.
  rewrite (assign_slice_lookup_inside _ _ _ _ _ p) by (lia || exact Hp).
  reflexivity.
Qed.

Lemma roi_pixel (y1 y2 x1 x2 : Z) (frame : Frame) (i j : nat) (p : Pixel) :
  0 <= y1 -> 0 <= x1 ->
  y1 <= Z.of_nat i < y2 -> x1 <= Z.of_nat j < x2 ->
  pixel_at frame i j = Some p ->
  pixel_at (roi y1 y2 x1 x2 frame) (i - Z.to_nat y1) (j - Z.to_nat x1) = Some p.
Proof.
  intros Hy1 Hx1 Hrow Hcol Hp. unfold pixel_at, roi, Frame in *.
  destruct (lookup i frame) as [row |] eqn:Hi; [| discriminate].
  simpl in Hp.
  pose proof (lookup_lt_Some _ _ _ Hi) as Hilt.
  pose proof (lookup_lt_Some _ _ _ Hp) as Hjlt.
  rewrite list_lookup_fmap, slice_lookup by lia.
  replace (Z.to_nat y1 + (i - Z.to_nat y1))%nat with i by lia.
  rewrite Hi. simpl.
  rewrite slice_lookup by lia.
  replace (Z.to_nat x1 + (j - Z.to_nat x1))%nat with j by lia.
  exact Hp.
Qed.

Lemma GaussianBlur_pixel (src : Frame) (ksize : Kernel) (i j : nat) (p : Pixel) :
  pixel_at src i j = Some p ->
  pixel_at (GaussianBlur src ksize) i j = Some (blur_at src ksize i j).
Proof.
  unfold pixel_at, GaussianBlur, Frame in *. intros Hp.
  rewrite list_lookup_imap.
  destruct (lookup i src) as [row |]; [| discriminate]. simpl in *.
  rewrite list_lookup_imap, Hp. reflexivity.
Qed.

Lemma size_positive (r : Frame) (i j : nat) (p : Pixel) :
  pixel_at r i j = Some p -> 0 < size r.
Proof.
  unfold pixel_at, size, Frame in *. revert i.
  induction r as [| row rows IH]; intros i Hp; [destruct i; discriminate |].
  simpl. rewrite length_app.
  destruct i as [| i]; simpl in Hp.
  - apply lookup_lt_Some in Hp. lia.
  - specialize (IH i Hp). lia.
Qed.

End Regions.

Section BlurredRegion.
Context `{Ext : Externals}.
Variables (width height : Z) (blur_kernel : Kernel).

Lemma blur_roi_outside (frame : Frame) (b : Box) (i j : nat) :
  (let '(x1, y1, x2, y2) := b in 0 <= x1 /\ 0 <= y1 /\ 0 <= x2 /\ 0 <= y2) ->
  ~ covers b i j ->
  pixel_at (blur_roi blur_kernel frame b) i j = pixel_at frame i j.
Proof.
  destruct b as [[[x1 y1] x2] y2]. intros (Hx1 & Hy1 & Hx2 & Hy2) Hout.
  unfold blur_roi. destruct (0 <? size _); [| reflexivity].
  apply set_roi_outside; assumption.
Qed.

(** X2: with frame dimensions that are not negative, blurring a list of
    boxes whose right and bottom corners are not negative leaves alone every
    pixel that lies in none of the boxes as clamped. *)
Theorem blur_faces_outside (faces : list Box) (frame : Frame) (i j : nat) :
  0 <= width -> 0 <= height ->
  Forall (fun b => let '(_, _, x2, y2) := b in 0 <= x2 /\ 0 <= y2) faces ->
  Forall (fun b => ~ covers (clamp width height b) i j) faces ->
  pixel_at (blur_faces width height blur_kernel faces frame) i j =
  pixel_at frame i j.
Proof.
  intros Hw Hh Hpos Hout. revert frame.
  induction faces as [| b faces IH]; intros frame; [reflexivity |].
  apply Forall_cons in Hpos. destruct Hpos as [Hb Hpos].
  apply Forall_cons in Hout. destruct Hout as [Hbout Hout].
  unfold blur_faces in *. simpl. rewrite (IH Hpos Hout).
  unfold blur_box. apply blur_roi_outside; [| exact Hbout].
  destruct b as [[[x1 y1] x2] y2]. simpl. lia.
Qed.

(** X3: a pixel of the frame that lies in the box as clamped receives the
    value the blur of the region gives at its place in the region. *)
Theorem blur_box_inside (frame : Frame) (b : Box) (i j : nat) (p : Pixel) :
  covers (clamp width height b) i j ->
  pixel_at frame i j = Some p ->
  let '(x1, y1, x2, y2) := clamp width height b in
  pixel_at (blur_box width height blur_kernel frame b) i j =
  Some (blur_at (roi y1 y2 x1 x2 frame) blur_kernel
          (i - Z.to_nat y1) (j - Z.to_nat x1)).
Proof.
  destruct b as [[[x1 y1] x2] y2]. unfold blur_box, blur_roi, covers, clamp.
  intros [Hrow Hcol] Hp.
  assert (Hroi :
    pixel_at (roi (Z.max 0 y1) (Z.min height y2) (Z.max 0 x1) (Z.min width x2)
                frame)
      (i - Z.to_nat (Z.max 0 y1)) (j - Z.to_nat (Z.max 0 x1)) = Some p).
  { apply roi_pixel; try assumption; lia. }
  apply size_positive in Hroi as Hsize.
  apply Z.ltb_lt in Hsize. rewrite Hsize.
  rewrite (set_roi_inside _ _ _ _ _ _ _ _ p) by (try assumption; lia).
  rewrite (GaussianBlur_pixel _ _ _ _ p Hroi). reflexivity.
Qed.

Lemma concat_map_nil {A B : Type} (f : A -> list B) (l : list A) :
  (forall x, f x = []) -> concat (map f l) = [].
Proof.
  intros Hf. induction l as [| x l IH]; [reflexivity |].
  simpl. rewrite Hf, IH. reflexivity.
Qed.

(** X4: a box that is empty once clamped, its right corner not right of its
    left corner or its bottom corner not below its top corner, leaves the
    frame as it is. *)
Theorem blur_box_empty (frame : Frame) (x1 y1 x2 y2 : Z) :
  0 <= width -> 0 <= height -> 0 <= x2 -> 0 <= y2 ->
  Z.min width x2 <= Z.max 0 x1 \/ Z.min height y2 <= Z.max 0 y1 ->
  blur_box width height blur_kernel frame (x1, y1, x2, y2) = frame.
Proof.
  intros Hw Hh Hx2 Hy2 Hempty. unfold blur_box, blur_roi, clamp.
  assert (Hsize :
    size (roi (Z.max 0 y1) (Z.min height y2) (Z.max 0 x1) (Z.min width x2)
            frame) = 0).
  { unfold size, roi. destruct Hempty as [Hx | Hy].
    - rewrite concat_map_nil; [reflexivity |].
      intros row. apply slice_empty; lia.
    - rewrite (slice_empty _ _ frame) by lia. reflexivity. }
  rewrite Hsize. reflexivity.
Qed.

(** X1: blurring changes neither the number of rows of a frame nor the
    length of any row, in the image pipeline and in the video pipeline. *)
Theorem blur_keeps_shape (model : Model) (confidence_threshold : Q)
    (faces : list Box) (frame : Frame) :
  map length (blur_faces width height blur_kernel faces frame) =
    map length frame /\
  map length (blur_image_frame model blur_kernel confidence_threshold frame) =
    map length frame /\
  frame_height (blur_image_frame model blur_kernel confidence_threshold frame) =
    frame_height frame.
Proof.
  split; [apply blur_faces_shape |].
  assert (Hshape :
    map length (blur_image_frame model blur_kernel confidence_threshold frame) =
    map length frame).
  { rewrite blur_image_frame_boxes_passing. apply blur_faces_shape. }
  split; [exact Hshape |].
  unfold frame_height. apply (f_equal length) in Hshape.
  rewrite !length_map in Hshape. rewrite Hshape. reflexivity.
Qed.

End BlurredRegion.

(** ** Truncation to integers *)

Lemma int_quot_rem (x : Q) :
  Qnum x = Z.pos (Qden x) * int x + Z.rem (Qnum x) (Z.pos (Qden x)).
Proof. unfold int. apply Z.quot_rem'. Qed.

(** X5: [int] moves a number towards zero by less than one: the corners of a
    box as integers lie within a pixel of the corners of the detector, and
    never farther from the origin. *)
Theorem int_towards_zero (x : Q) :
  ((0 <= x -> inject_Z (int x) <= x /\ x < inject_Z (int x + 1)) /\
   (x <= 0 -> x <= inject_Z (int x) /\ inject_Z (int x - 1) < x))%Q.
Proof.
  destruct x as [n d]. pose proof (int_quot_rem (n # d)) as Hqr.
  unfold Qle, Qlt. simpl in *. split; intros Hsign.
  - pose proof (Z.rem_bound_pos n (Z.pos d)) as Hrem. nia.
  - assert (Hrem : - Z.pos d < Z.rem n (Z.pos d) <= 0).
    { pose proof (Z.rem_bound_pos (- n) (Z.pos d)) as Hpos.
      rewrite Z.rem_opp_l in Hpos by discriminate. lia. }
    nia.
Qed.


Section WholeProperties.
Context `{Ext : Externals}.
Variables (model : Model) (output_dir : string).
Variables (blur_kernel : Kernel) (confidence_threshold : Q).


End WholeProperties.

(** ** Sampling of the frames *)

Lemma div_succ (n d : Z) :
  0 <= n -> 0 < d ->
  (n + 1) / d = n / d + (if (n + 1) mod d =? 0 then 1 else 0).
Proof.
  intros Hn Hd.
  assert (Hd0 : d <> 0) by lia.
  pose proof (Z.div_mod n d Hd0) as Hn1.
  pose proof (Z.mod_pos_bound n d Hd) as Hn2.
  pose proof (Z.div_mod (n + 1) d Hd0) as Hs1.
  pose proof (Z.mod_pos_bound (n + 1) d Hd) as Hs2.
  set (q := n / d) in *. set (r := n mod d) in *.
  set (q' := (n + 1) / d) in *. set (r' := (n + 1) mod d) in *.
  clearbody q r q' r'.
  assert (Hdiff : d * (q' - q) = r + 1 - r') by lia.
  assert (Hlow : forall m, q' - q <= m -> d * (q' - q) <= d * m).
  { intros m Hm. apply Z.mul_le_mono_nonneg_l; lia. }
  assert (Hhigh : forall m, m <= q' - q -> d * m <= d * (q' - q)).
  { intros m Hm. apply Z.mul_le_mono_nonneg_l; lia. }
  destruct (Z.eqb_spec r' 0) as [Hz | Hnz].
  - destruct (Z_lt_le_dec (q' - q) 1) as [Hlt | Hge].
    + specialize (Hlow 0). lia.
    + destruct (Z_lt_le_dec 1 (q' - q)) as [Hgt | Hle]; [| lia].
      specialize (Hhigh 2). lia.
  - destruct (Z_lt_le_dec (q' - q) 0) as [Hlt | Hge].
    + specialize (Hlow (-1)). lia.
    + destruct (Z_lt_le_dec 0 (q' - q)) as [Hgt | Hle]; [| lia].
      specialize (Hhigh 1). lia.
Qed.

Lemma multiple_below (d k : Z) : 0 < k < d -> ~ (d | k).
Proof.
  intros Hk [q Hq]. subst k.
  destruct (Z_lt_le_dec q 1) as [Hlt | Hge].
  - assert (q * d <= 0 * d) by (apply Z.mul_le_mono_nonneg_r; lia). lia.
  - assert (1 * d <= q * d) by (apply Z.mul_le_mono_nonneg_r; lia). lia.
Qed.

Section Sampling.
Context `{Ext : Externals}.
Variables (model : Model) (blur_kernel : Kernel) (confidence_threshold : Q).
Variables (detection_interval width height frame_count : Z).
Variable video_name : string.
Hypothesis interval_positive : 0 < detection_interval.

Local Abbreviation loop :=
  (video_loop model blur_kernel confidence_threshold detection_interval
     width height frame_count video_name).
Local Abbreviation run frames := (fst (loop frames loop_start)).
Local Abbreviation faces_after frames n :=
  (sampled_faces model confidence_threshold detection_interval frames n).

Lemma interval_not_zero : detection_interval <> 0.
Proof. lia. Qed.

Lemma run_snoc_calls (frames : list Frame) (frame : Frame) :
  model_calls (run (frames ++ [frame])) =
  if (Z.of_nat (length frames) + 1) mod detection_interval =? 0
  then model_calls (run frames) ++ [frame]
  else model_calls (run frames).
Proof.
  rewrite video_loop_snoc, video_frame_calls by exact interval_not_zero.
  rewrite video_loop_frame_number by exact interval_not_zero.
  reflexivity.
Qed.

Lemma run_snoc_faces (frames : list Frame) (frame : Frame) :
  last_known_faces (run (frames ++ [frame])) =
  if (Z.of_nat (length frames) + 1) mod detection_interval =? 0
  then boxes_passing confidence_threshold (model frame)
  else last_known_faces (run frames).
Proof.
  rewrite video_loop_snoc, video_frame_faces by exact interval_not_zero.
  rewrite video_loop_frame_number by exact interval_not_zero.
  rewrite detect_faces_boxes_passing. reflexivity.
Qed.

Lemma run_snoc_written (frames : list Frame) (frame : Frame) :
  written (run (frames ++ [frame])) =
  written (run frames) ++
  [blur_faces width height blur_kernel
     (last_known_faces (run (frames ++ [frame]))) frame].
Proof.
  rewrite video_loop_snoc, video_frame_written by exact interval_not_zero.
  reflexivity.
Qed.

(** X7: with a positive interval [d] the detector is called once every [d]
    frames: after [n] frames it has been called [n / d] times, rounded
    down. *)
Theorem detector_calls_count (frames : list Frame) :
  Z.of_nat (length (model_calls (run frames))) =
  Z.of_nat (length frames) / detection_interval.
Proof.
  induction frames as [| frame frames IH] using rev_ind.
  - simpl. rewrite Z.div_0_l by lia. reflexivity.
  - rewrite run_snoc_calls, length_app. simpl length.
    rewrite Nat2Z.inj_add, div_succ by lia. simpl Z.of_nat.
    destruct (_ =? 0).
    + rewrite length_app, Nat2Z.inj_add, IH. reflexivity.
    + rewrite IH. lia.
Qed.

(** The closed form does not look beyond the frames counted. *)
Lemma sampled_faces_prefix (frames more : list Frame) (n : Z) :
  0 <= n <= Z.of_nat (length frames) ->
  faces_after (frames ++ more) n = faces_after frames n.
Proof.
  intros Hn. unfold sampled_faces.
  destruct (Z.eqb_spec (n / detection_interval) 0) as [Hz | Hnz]; [reflexivity |].
  pose proof (Z.mul_div_le n detection_interval interval_positive) as Hle.
  pose proof (Z.div_pos n detection_interval (proj1 Hn) interval_positive) as Hpos.
  rewrite lookup_app_l by nia. reflexivity.
Qed.

Lemma sampled_faces_snoc (frames : list Frame) (frame : Frame) :
  faces_after (frames ++ [frame]) (Z.of_nat (length frames) + 1) =
  if (Z.of_nat (length frames) + 1) mod detection_interval =? 0
  then boxes_passing confidence_threshold (model frame)
  else faces_after frames (Z.of_nat (length frames)).
Proof.
  set (n := Z.of_nat (length frames)).
  assert (Hn : 0 <= n) by lia.
  pose proof (div_succ n detection_interval Hn interval_positive) as Hdiv.
  pose proof (Z.div_mod (n + 1) detection_interval interval_not_zero) as Hdm.
  pose proof (Z.div_pos n detection_interval Hn interval_positive) as Hpos.
  destruct (Z.eqb_spec ((n + 1) mod detection_interval) 0) as [Hz | Hnz].
  - unfold sampled_faces.
    destruct (Z.eqb_spec ((n + 1) / detection_interval) 0); [lia |].
    replace (Z.to_nat (detection_interval * ((n + 1) / detection_interval) - 1))
      with (length frames) by lia.
    rewrite list_lookup_middle by reflexivity. reflexivity.
  - rewrite <- (sampled_faces_prefix frames [frame] n) by lia.
    unfold sampled_faces. rewrite Hdiv, Z.add_0_r. reflexivity.
Qed.

(** X8: with a positive interval, the cache after any number of frames holds
    the boxes that passed the comparison of line 133 on the last frame whose
    number is a multiple of the interval, and the frame written for each
    frame read is that frame blurred at the cache of its own number; before
    the first multiple nothing is cached. *)
Theorem loop_closed_form (frames : list Frame) :
  last_known_faces (run frames) = faces_after frames (Z.of_nat (length frames)) /\
  written (run frames) =
    imap (fun i frame =>
            blur_faces width height blur_kernel
              (faces_after frames (Z.of_nat i + 1)) frame)
         frames.
Proof.
  induction frames as [| frame frames [IHf IHw]] using rev_ind.
  - split; reflexivity.
  - assert (Hfaces :
      last_known_faces (run (frames ++ [frame])) =
      faces_after (frames ++ [frame]) (Z.of_nat (length frames) + 1)).
    { rewrite run_snoc_faces, sampled_faces_snoc, IHf. reflexivity. }
    split.
    + rewrite Hfaces, length_app. simpl length. f_equal. lia.
    + rewrite run_snoc_written, Hfaces, IHw, imap_app. simpl.
      rewrite Nat.add_0_r. f_equal.
      apply imap_ext. intros i f Hi. apply lookup_lt_Some in Hi.
      rewrite sampled_faces_prefix by lia. reflexivity.
Qed.

Lemma blur_no_faces (frames : list Frame) :
  map (blur_faces width height blur_kernel []) frames = frames.
Proof.
  induction frames as [| frame frames IH]; [reflexivity |].
  simpl. rewrite IH. reflexivity.
Qed.

(** X9: with a positive interval, a video shorter than the interval is
    written as it was read: the detector is never called and no pixel is
    changed. *)
Theorem short_video_untouched (frames : list Frame) :
  Z.of_nat (length frames) < detection_interval ->
  written (run frames) = frames /\
  model_calls (run frames) = [] /\
  last_known_faces (run frames) = [].
Proof.
  intros Hshort.
  destruct (loop_without_detection model blur_kernel confidence_threshold
              detection_interval width height frame_count video_name
              interval_not_zero frames loop_start) as (Hf & Hc & Hw).
  { intros k Hk. simpl. apply multiple_below. lia. }
  rewrite Hf, Hc, Hw. simpl. rewrite blur_no_faces. auto.
Qed.

End Sampling.

(** ** Progress lines, and intervals that are not positive *)

Section Intervals.
Context `{Ext : Externals}.
Variables (model : Model) (blur_kernel : Kernel) (confidence_threshold : Q).

Lemma video_frame_printed (detection_interval width height frame_count : Z)
    (video_name : string) (st : Loop) (frame : Frame) :
  printed (fst (video_frame model blur_kernel confidence_threshold
                  detection_interval width height frame_count video_name
                  st frame)) =
  if (frame_number st + 1) mod 30 =? 0
  then printed st ++ [MsgFrame (frame_number st + 1) frame_count video_name]
  else printed st.
Proof. unfold video_frame. destruct (detection_interval =? 0); reflexivity. Qed.

(** X10: with an interval other than zero, the loop reports the frames
    numbered 30, 60, 90 and so on, each with the frame count the capture
    announced, and no other. *)
Theorem progress_every_thirty (detection_interval width height frame_count : Z)
    (video_name : string) (frames : list Frame) :
  detection_interval <> 0 ->
  printed (fst (video_loop model blur_kernel confidence_threshold
                  detection_interval width height frame_count video_name
                  frames loop_start)) =
  map (fun k => MsgFrame (30 * k) frame_count video_name)
      (seqZ 1 (Z.of_nat (length frames) / 30)).
Proof.
  intros Hd. induction frames as [| frame frames IH] using rev_ind;
    [reflexivity |].
  rewrite video_loop_snoc, video_frame_printed by exact Hd.
  rewrite video_loop_frame_number by exact Hd. simpl frame_number.
  rewrite Z.add_0_l, length_app, Nat2Z.inj_add. simpl length.
  change (Z.of_nat 1) with 1.
  set (n := Z.of_nat (length frames)) in *.
  assert (Hn : 0 <= n) by lia.
  rewrite (div_succ n 30) by lia.
  pose proof (Z.div_pos n 30 Hn ltac:(lia)) as Hpos.
  destruct (Z.eqb_spec ((n + 1) mod 30) 0) as [Hz | Hnz].
  - rewrite seqZ_app by lia. rewrite map_app, IH. f_equal.
    rewrite seqZ_cons, seqZ_nil by lia. simpl. f_equal. f_equal.
    pose proof (Z.div_mod (n + 1) 30 ltac:(lia)) as Hdm.
    rewrite (div_succ n 30) in Hdm by lia.
    destruct (Z.eqb_spec ((n + 1) mod 30) 0); lia.
  - rewrite Z.add_0_r. exact IH.
Qed.

Lemma mod_opp_zero (n d : Z) : (n mod - d =? 0) = (n mod d =? 0).
Proof.
  destruct (Z.eqb_spec d 0) as [-> | Hd]; [reflexivity |].
  destruct (Z.eqb_spec (n mod d) 0) as [Hz | Hnz].
  - apply Z.eqb_eq. apply Z.mod_divide; [lia |].
    apply Z.divide_opp_l. apply Z.mod_divide; assumption.
  - apply Z.eqb_neq. intros Hz. apply Hnz. apply Z.mod_divide; [exact Hd |].
    apply Z.divide_opp_l. apply Z.mod_divide; [lia | exact Hz].
Qed.

Lemma video_frame_opp (detection_interval width height frame_count : Z)
    (video_name : string) (st : Loop) (frame : Frame) :
  video_frame model blur_kernel confidence_threshold (- detection_interval)
    width height frame_count video_name st frame =
  video_frame model blur_kernel confidence_threshold detection_interval
    width height frame_count video_name st frame.
Proof.
  unfold video_frame. rewrite mod_opp_zero.
  replace (- detection_interval =? 0) with (detection_interval =? 0);
    [reflexivity |].
  destruct (Z.eqb_spec detection_interval 0);
    destruct (Z.eqb_spec (- detection_interval) 0); lia || reflexivity.
Qed.

Lemma video_loop_opp (detection_interval width height frame_count : Z)
    (video_name : string) (frames : list Frame) (st : Loop) :
  video_loop model blur_kernel confidence_threshold (- detection_interval)
    width height frame_count video_name frames st =
  video_loop model blur_kernel confidence_threshold detection_interval
    width height frame_count video_name frames st.
Proof.
  revert st. induction frames as [| frame frames IH]; intros st; [reflexivity |].
  simpl. rewrite video_frame_opp.
  destruct (video_frame _ _ _ _ _ _ _ _ _ _) as [st' [| e]];
    [apply IH | reflexivity].
Qed.

End Intervals.

Section IntervalCalls.
Context `{Ext : Externals}.
Variables (blur_kernel : Kernel) (confidence_threshold : Q).

(** X11: a negative interval is not refused; the call behaves in every
    respect as with the interval of the opposite sign. *)
Theorem negative_interval_as_positive (video_paths : list string)
    (output_dir : string) (detection_interval : Z) (w : World) :
  blur_faces_in_videos video_paths output_dir blur_kernel confidence_threshold
    (- detection_interval) w =
  blur_faces_in_videos video_paths output_dir blur_kernel confidence_threshold
    detection_interval w.
Proof.
  unfold blur_faces_in_videos.
  destruct (YOLO _) as [e | m]; [reflexivity |].
  assert (Hall : forall paths w0,
    process_videos m output_dir blur_kernel confidence_threshold
      (- detection_interval) paths w0 =
    process_videos m output_dir blur_kernel confidence_threshold
      detection_interval paths w0).
  { intros paths. induction paths as [| p paths IH]; intros w0; [reflexivity |].
    simpl. unfold process_video.
    destruct (negb _); [apply IH |].
    destruct (_ ≫= VideoCapture) as [cap |]; [| apply IH].
    rewrite video_loop_opp.
    destruct (video_loop _ _ _ _ _ _ _ _ _ _) as [st [| e]];
      [apply IH | reflexivity]. }
  rewrite Hall. reflexivity.
Qed.


End IntervalCalls.

(** ** What a batch of images does to the disk *)

Lemma outputs_done_snoc_other (lines : list Msg) (m : Msg) :
  (forall name output_path, m <> MsgDone name output_path) ->
  outputs_done (lines ++ [m]) = outputs_done lines.
Proof.
  intros Hm. rewrite outputs_done_app.
  destruct m; simpl; rewrite ?app_nil_r; try reflexivity.
  exfalso. eapply Hm. reflexivity.
Qed.

Section ImageBatch.
Context `{Ext : Externals}.
Variables (model : Model) (output_dir : string).
Variables (blur_kernel : Kernel) (confidence_threshold : Q).

Local Abbreviation one :=
  (process_image model output_dir blur_kernel confidence_threshold).
Local Abbreviation batch paths w := (fold_left one paths w).

(** Lines 30-41 for an image that is missing or cannot be read. *)
Lemma process_image_unread (w : World) (image_path : string) :
  cv2_imread w image_path = None ->
  files (one w image_path) = files w /\
  dirs (one w image_path) = dirs w /\
  outputs_done (console (one w image_path)) = outputs_done (console w).
Proof.
  intros Hread. unfold process_image.
  destruct (negb (path_exists w image_path)).
  - simpl. rewrite outputs_done_snoc_other by discriminate. auto.
  - unfold cv2_imread in *. simpl files. rewrite Hread. simpl.
    rewrite <- app_assoc, outputs_done_app. simpl. rewrite app_nil_r. auto.
Qed.

(** What lines 30-64 do to the disk and report as saved depends on the disk
    only. *)
Lemma process_image_disk (w1 w2 : World) (image_path : string) :
  files w1 = files w2 -> dirs w1 = dirs w2 ->
  files (one w1 image_path) = files (one w2 image_path) /\
  dirs (one w1 image_path) = dirs (one w2 image_path) /\
  exists outs,
    outputs_done (console (one w1 image_path)) =
      outputs_done (console w1) ++ outs /\
    outputs_done (console (one w2 image_path)) =
      outputs_done (console w2) ++ outs.
Proof.
  intros Hfiles Hdirs.
  destruct (cv2_imread w1 image_path) as [frame |] eqn:Hread.
  - assert (Hread2 : cv2_imread w2 image_path = Some frame).
    { unfold cv2_imread in *. rewrite <- Hfiles. exact Hread. }
    rewrite (process_image_read _ _ _ _ _ _ _ Hread).
    rewrite (process_image_read _ _ _ _ _ _ _ Hread2).
    simpl. rewrite Hfiles, Hdirs. split; [reflexivity |]. split; [reflexivity |].
    exists [output_path_of output_dir image_path].
    rewrite !outputs_done_app. simpl. auto.
  - assert (Hread2 : cv2_imread w2 image_path = None).
    { unfold cv2_imread in *. rewrite <- Hfiles. exact Hread. }
    destruct (process_image_unread w1 image_path Hread) as (Hf1 & Hd1 & Ho1).
    destruct (process_image_unread w2 image_path Hread2) as (Hf2 & Hd2 & Ho2).
    rewrite Hf1, Hf2, Hd1, Hd2, Ho1, Ho2.
    split; [exact Hfiles |]. split; [exact Hdirs |].
    exists []. rewrite !app_nil_r. auto.
Qed.

Lemma batch_disk (paths : list string) (w1 w2 : World) :
  files w1 = files w2 -> dirs w1 = dirs w2 ->
  files (batch paths w1) = files (batch paths w2) /\
  dirs (batch paths w1) = dirs (batch paths w2) /\
  exists outs,
    outputs_done (console (batch paths w1)) = outputs_done (console w1) ++ outs /\
    outputs_done (console (batch paths w2)) = outputs_done (console w2) ++ outs.
Proof.
  revert w1 w2. induction paths as [| p paths IH]; intros w1 w2 Hfiles Hdirs.
  - simpl. split; [exact Hfiles |]. split; [exact Hdirs |].
    exists []. rewrite !app_nil_r. auto.
  - simpl.
    destruct (process_image_disk w1 w2 p Hfiles Hdirs)
      as (Hf & Hd & outs1 & Ho1 & Ho2).
    destruct (IH _ _ Hf Hd) as (Hf' & Hd' & outs2 & Ho1' & Ho2').
    split; [exact Hf' |]. split; [exact Hd' |].
    exists (outs1 ++ outs2).
    rewrite Ho1', Ho2', Ho1, Ho2, <- !app_assoc. auto.
Qed.

Lemma process_image_dirs (w : World) (image_path : string) :
  dirs (one w image_path) = dirs w.
Proof.
  destruct (cv2_imread w image_path) as [frame |] eqn:Hread.
  - rewrite (process_image_read _ _ _ _ _ _ _ Hread). reflexivity.
  - apply process_image_unread. exact Hread.
Qed.

Lemma process_image_other (w : World) (image_path p : string) :
  p <> output_path_of output_dir image_path ->
  files (one w image_path) !! p = files w !! p.
Proof.
  intros Hp.
  destruct (cv2_imread w image_path) as [frame |] eqn:Hread.
  - rewrite (process_image_read _ _ _ _ _ _ _ Hread). simpl.
    apply lookup_insert_ne. congruence.
  - destruct (process_image_unread w image_path Hread) as (Hf & _).
    rewrite Hf. reflexivity.
Qed.

Lemma process_image_keeps (w : World) (image_path p : string) :
  is_Some (files w !! p) -> is_Some (files (one w image_path) !! p).
Proof.
  intros Hsome.
  destruct (decide (p = output_path_of output_dir image_path)) as [-> | Hne].
  - destruct (cv2_imread w image_path) as [frame |] eqn:Hread.
    + rewrite (process_image_read _ _ _ _ _ _ _ Hread). simpl.
      rewrite lookup_insert_eq. eauto.
    + destruct (process_image_unread w image_path Hread) as (Hf & _).
      rewrite Hf. exact Hsome.
  - rewrite process_image_other by exact Hne. exact Hsome.
Qed.

Lemma batch_dirs (paths : list string) (w : World) :
  dirs (batch paths w) = dirs w.
Proof.
  revert w. induction paths as [| p paths IH]; intros w; [reflexivity |].
  simpl. rewrite IH. apply process_image_dirs.
Qed.

Lemma batch_other (paths : list string) (w : World) (p : string) :
  Forall (fun q => p <> output_path_of output_dir q) paths ->
  files (batch paths w) !! p = files w !! p.
Proof.
  revert w. induction paths as [| q paths IH]; intros w Hp; [reflexivity |].
  apply Forall_cons in Hp. destruct Hp as [Hq Hp].
  simpl. rewrite IH by exact Hp. apply process_image_other. exact Hq.
Qed.

Lemma batch_keeps (paths : list string) (w : World) (p : string) :
  is_Some (files w !! p) -> is_Some (files (batch paths w) !! p).
Proof.
  revert w. induction paths as [| q paths IH]; intros w Hsome; [exact Hsome |].
  simpl. apply IH. apply process_image_keeps. exact Hsome.
Qed.

(** The outputs a batch reports are outputs of its inputs, in their order,
    and are on the disk when the batch ends. *)
Lemma batch_outputs (paths : list string) (w : World) :
  exists outs,
    outputs_done (console (batch paths w)) = outputs_done (console w) ++ outs /\
    sublist outs (map (output_path_of output_dir) paths) /\
    Forall (fun o => is_Some (files (batch paths w) !! o)) outs.
Proof.
  revert w. induction paths as [| p paths IH]; intros w.
  - exists []. simpl. rewrite app_nil_r. repeat split; constructor.
  - simpl. destruct (IH (one w p)) as (outs & Ho & Hsub & Hon).
    destruct (cv2_imread w p) as [frame |] eqn:Hread.
    + exists (output_path_of output_dir p :: outs). split; [| split].
      * rewrite Ho, (process_image_read _ _ _ _ _ _ _ Hread). simpl.
        rewrite !outputs_done_app. simpl. rewrite <- app_assoc. reflexivity.
      * constructor. exact Hsub.
      * constructor; [| exact Hon]. apply batch_keeps.
        rewrite (process_image_read _ _ _ _ _ _ _ Hread). simpl.
        rewrite lookup_insert_eq. eauto.
    + exists outs. split; [| split].
      * rewrite Ho. destruct (process_image_unread w p Hread) as (_ & _ & Hc).
        rewrite Hc. reflexivity.
      * constructor. exact Hsub.
      * exact Hon.
Qed.

End ImageBatch.

Lemma output_path_of_not_weights (output_dir path : string) :
  weights <> output_path_of output_dir path.
Proof.
  intros Heq. apply (f_equal basename) in Heq.
  rewrite basename_output_path_of in Heq.
  destruct (basename path); discriminate.
Qed.

(** X18: two inputs are saved under one path exactly when their last
    components are the same. *)
Theorem output_path_of_same_iff (output_dir p1 p2 : string) :
  output_path_of output_dir p1 = output_path_of output_dir p2 <->
  basename p1 = basename p2.
Proof.
  split.
  - intros Heq. apply (f_equal basename) in Heq.
    rewrite !basename_output_path_of in Heq.
    apply (inj (String.app "blurred_")) in Heq. exact Heq.
  - intros Heq. unfold output_path_of. rewrite Heq. reflexivity.
Qed.

Section ImageCalls.
Context `{Ext : Externals}.
Variables (output_dir : string).
Variables (blur_kernel : Kernel) (confidence_threshold : Q).

Local Abbreviation images paths w :=
  (blur_faces_in_images paths output_dir blur_kernel confidence_threshold w).

Lemma path_exists_ensure_output_dir (w : World) :
  path_exists (ensure_output_dir w output_dir) output_dir = true.
Proof.
  unfold ensure_output_dir.
  destruct (path_exists w output_dir) eqn:Hex; [exact Hex |].
  unfold path_exists. simpl.
  rewrite (bool_decide_eq_true_2 (output_dir ∈ {[output_dir]} ∪ dirs w))
    by set_solver.
  apply orb_true_r.
Qed.

Lemma path_exists_same_disk (w1 w2 : World) (p : string) :
  files w1 = files w2 -> dirs w1 = dirs w2 ->
  path_exists w1 p = path_exists w2 p.
Proof. intros Hf Hd. unfold path_exists. rewrite Hf, Hd. reflexivity. Qed.

Lemma ensure_output_dir_present (w : World) :
  path_exists w output_dir = true -> ensure_output_dir w output_dir = w.
Proof. intros Hex. unfold ensure_output_dir. rewrite Hex. reflexivity. Qed.

Lemma path_exists_batch (model : Model) (paths : list string) (w : World)
    (p : string) :
  path_exists w p = true ->
  path_exists
    (fold_left
       (process_image model output_dir blur_kernel confidence_threshold)
       paths w) p = true.
Proof.
  unfold path_exists. rewrite batch_dirs. intros Hex.
  apply orb_true_iff in Hex. apply orb_true_iff.
  destruct Hex as [Hfile | Hdir]; [left | right; exact Hdir].
  apply bool_decide_eq_true in Hfile. apply bool_decide_eq_true.
  apply batch_keeps. exact Hfile.
Qed.

Lemma images_other (image_paths : list string) (w : World) (p : string) :
  Forall (fun q => p <> output_path_of output_dir q) image_paths ->
  files (images image_paths w) !! p = files w !! p.
Proof.
  intros Hp. unfold blur_faces_in_images.
  destruct (YOLO _) as [e | model]; simpl.
  - rewrite files_ensure_output_dir. reflexivity.
  - rewrite batch_other by exact Hp.
    rewrite files_ensure_output_dir. reflexivity.
Qed.

(** X13: a call of the image pipeline changes no file but the outputs of
    its inputs: any path that is the output path of none of the inputs holds
    after the call what it held before. The inputs are read, never written,
    unless one of them is itself the output path of an input. *)
Theorem images_write_only_outputs (image_paths : list string) (w : World)
    (p : string) :
  Forall (fun q => p <> output_path_of output_dir q) image_paths ->
  files (images image_paths w) !! p = files w !! p.
Proof. apply images_other. Qed.

(** X14: the outputs a call of the image pipeline reports as saved are
    output paths of its inputs, in the order of the inputs and at most one
    for each input. *)
Theorem images_outputs_bound (image_paths : list string) (w : World) :
  exists outs : list string,
    outputs_done (console (images image_paths w)) =
      outputs_done (console w) ++ outs /\
    sublist outs (map (output_path_of output_dir) image_paths) /\
    (length outs <= length image_paths)%nat.
Proof.
  unfold blur_faces_in_images.
  destruct (YOLO _) as [e | model].
  - exists []. simpl. rewrite outputs_done_snoc_other by discriminate.
    rewrite outputs_done_ensure_output_dir, app_nil_r. split; [reflexivity |].
    split; [apply sublist_nil_l |]. simpl; lia.
  - destruct (batch_outputs model output_dir blur_kernel confidence_threshold
                image_paths (ensure_output_dir w output_dir))
      as (outs & Ho & Hsub & _).
    exists outs. simpl. rewrite outputs_done_snoc_other by discriminate.
    rewrite Ho, outputs_done_ensure_output_dir. split; [reflexivity |].
    split; [exact Hsub |].
    apply sublist_length in Hsub. rewrite length_map in Hsub. exact Hsub.
Qed.

(** X15: an input that is missing, or that does not decode, when the call
    starts, and that is the output path of no input before it, costs the
    batch nothing but warnings: the files, the directories and the outputs
    reported are those of the same call without it. *)
Theorem unreadable_image_skipped (pre post : list string) (image_path : string)
    (w : World) :
  cv2_imread w image_path = None ->
  Forall (fun q => image_path <> output_path_of output_dir q) pre ->
  files (images (pre ++ image_path :: post) w) = files (images (pre ++ post) w) /\
  dirs (images (pre ++ image_path :: post) w) = dirs (images (pre ++ post) w) /\
  outputs_done (console (images (pre ++ image_path :: post) w)) =
    outputs_done (console (images (pre ++ post) w)).
Proof.
  intros Hread Hpre. unfold blur_faces_in_images.
  destruct (YOLO _) as [e | model]; [auto |].
  set (w0 := ensure_output_dir w output_dir).
  rewrite !fold_left_app. simpl fold_left.
  set (w1 := fold_left _ pre w0).
  assert (Hread1 : cv2_imread w1 image_path = None).
  { unfold cv2_imread in *. unfold w1. rewrite batch_other by exact Hpre.
    unfold w0. rewrite files_ensure_output_dir. exact Hread. }
  destruct (process_image_unread model output_dir blur_kernel
              confidence_threshold w1 image_path Hread1) as (Hf & Hd & Ho).
  destruct (batch_disk model output_dir blur_kernel confidence_threshold post
              _ _ Hf Hd) as (Hf' & Hd' & outs & Ho1 & Ho2).
  simpl. split; [exact Hf' |]. split; [exact Hd' |].
  rewrite !outputs_done_snoc_other by discriminate.
  rewrite Ho1, Ho2, Ho. reflexivity.
Qed.

Lemma images_failed (paths : list string) (w : World) (e : exn) :
  YOLO (files w !! weights) = inl e ->
  images paths w = print (ensure_output_dir w output_dir) (MsgModelError e).
Proof.
  intros Hload. unfold blur_faces_in_images.
  rewrite files_ensure_output_dir, Hload. reflexivity.
Qed.

Lemma images_loaded (paths : list string) (w : World) (model : Model) :
  YOLO (files w !! weights) = inr model ->
  images paths w =
  print (fold_left
           (process_image model output_dir blur_kernel confidence_threshold)
           paths (ensure_output_dir w output_dir)) MsgAllImages.
Proof.
  intros Hload. unfold blur_faces_in_images.
  rewrite files_ensure_output_dir, Hload. reflexivity.
Qed.

(** X16: a batch of images may be split: a call on the first part followed
    by a call on the second part leaves the files, the directories and the
    outputs reported that one call on the whole list leaves. *)
Theorem images_batch_split (paths1 paths2 : list string) (w : World) :
  files (images (paths1 ++ paths2) w) = files (images paths2 (images paths1 w)) /\
  dirs (images (paths1 ++ paths2) w) = dirs (images paths2 (images paths1 w)) /\
  outputs_done (console (images (paths1 ++ paths2) w)) =
    outputs_done (console (images paths2 (images paths1 w))).
Proof.
  assert (Hweights : files (images paths1 w) !! weights = files w !! weights).
  { apply images_other. apply Forall_forall.
    intros q _. apply output_path_of_not_weights. }
  set (w0 := ensure_output_dir w output_dir).
  assert (Hex : path_exists w0 output_dir = true)
    by apply path_exists_ensure_output_dir.
  destruct (YOLO (files w !! weights)) as [e | model] eqn:Hload.
  - assert (Hload1 : YOLO (files (images paths1 w) !! weights) = inl e)
      by (rewrite Hweights; exact Hload).
    rewrite (images_failed paths2 _ e Hload1).
    rewrite !(images_failed _ w e Hload). fold w0.
    rewrite (ensure_output_dir_present (print w0 (MsgModelError e)))
      by (rewrite <- Hex; apply path_exists_same_disk; reflexivity).
    simpl. rewrite !outputs_done_snoc_other by discriminate. auto.
  - assert (Hload1 : YOLO (files (images paths1 w) !! weights) = inr model)
      by (rewrite Hweights; exact Hload).
    rewrite (images_loaded paths2 _ model Hload1).
    rewrite !(images_loaded _ w model Hload). fold w0.
    rewrite fold_left_app.
    set (w1 := fold_left _ paths1 w0).
    assert (Hex1 : path_exists w1 output_dir = true)
      by (apply path_exists_batch; exact Hex).
    rewrite (ensure_output_dir_present (print w1 MsgAllImages))
      by (rewrite <- Hex1; apply path_exists_same_disk; reflexivity).
    destruct (batch_disk model output_dir blur_kernel confidence_threshold
                paths2 w1 (print w1 MsgAllImages) eq_refl eq_refl)
      as (Hf & Hd & outs & Ho1 & Ho2).
    simpl. split; [exact Hf |]. split; [exact Hd |].
    rewrite !outputs_done_snoc_other by discriminate.
    rewrite Ho1, Ho2. simpl. rewrite outputs_done_snoc_other by discriminate.
    reflexivity.
Qed.

End ImageCalls.

(** ** What a batch of videos does to the disk *)

Section VideoBatch.
Context `{Ext : Externals}.
Variables (model : Model) (output_dir : string).
Variables (blur_kernel : Kernel) (confidence_threshold : Q).
Variable detection_interval : Z.

Local Abbreviation one :=
  (process_video model output_dir blur_kernel confidence_threshold
     detection_interval).
Local Abbreviation batch :=
  (process_videos model output_dir blur_kernel confidence_threshold
     detection_interval).

Lemma process_video_other (w : World) (video_path p : string) :
  p <> output_path_of output_dir video_path ->
  files (fst (one w video_path)) !! p = files w !! p.
Proof.
  intros Hp. unfold output_path_of in Hp. unfold process_video.
  destruct (negb _); [reflexivity |].
  destruct (_ ≫= VideoCapture) as [cap |]; [| reflexivity].
  destruct (video_loop _ _ _ _ _ _ _ _ _ _) as [st [| e]]; simpl;
    apply lookup_insert_ne; congruence.
Qed.

Lemma process_video_dirs (w : World) (video_path : string) :
  dirs (fst (one w video_path)) = dirs w.
Proof.
  unfold process_video.
  destruct (negb _); [reflexivity |].
  destruct (_ ≫= VideoCapture) as [cap |]; [| reflexivity].
  destruct (video_loop _ _ _ _ _ _ _ _ _ _) as [st [| e]]; reflexivity.
Qed.

(** Lines 95-106 for a video that is missing or does not open. *)
Lemma process_video_unopened (w : World) (video_path : string) :
  files w !! video_path ≫= VideoCapture = None ->
  snd (one w video_path) = Returned /\
  files (fst (one w video_path)) = files w /\
  dirs (fst (one w video_path)) = dirs w /\
  outputs_done (console (fst (one w video_path))) = outputs_done (console w).
Proof.
  intros Hopen. unfold process_video.
  destruct (negb _).
  - simpl. rewrite outputs_done_snoc_other by discriminate. auto.
  - simpl files. rewrite Hopen. simpl.
    rewrite <- app_assoc, outputs_done_app. simpl. rewrite app_nil_r. auto.
Qed.

(** What lines 95-150 do to the disk, how they end and what they report as
    saved depend on the disk only. *)
Lemma process_video_disk (w1 w2 : World) (video_path : string) :
  files w1 = files w2 -> dirs w1 = dirs w2 ->
  snd (one w1 video_path) = snd (one w2 video_path) /\
  files (fst (one w1 video_path)) = files (fst (one w2 video_path)) /\
  dirs (fst (one w1 video_path)) = dirs (fst (one w2 video_path)) /\
  exists outs,
    outputs_done (console (fst (one w1 video_path))) =
      outputs_done (console w1) ++ outs /\
    outputs_done (console (fst (one w2 video_path))) =
      outputs_done (console w2) ++ outs.
Proof.
  intros Hfiles Hdirs. unfold process_video.
  rewrite (path_exists_same_disk w1 w2 video_path Hfiles Hdirs).
  destruct (negb _).
  - simpl. rewrite !outputs_done_snoc_other by discriminate.
    repeat split; try assumption. exists []. rewrite !app_nil_r. auto.
  - simpl files. rewrite Hfiles.
    destruct (_ ≫= VideoCapture) as [cap |].
    + destruct (video_loop _ _ _ _ _ _ _ _ _ _) as [st res] eqn:Hloop.
      assert (Hprinted : outputs_done (printed st) = []).
      { pose proof (outputs_done_video_loop model blur_kernel
                      confidence_threshold detection_interval
                      (int (CAP_PROP_FRAME_WIDTH cap))
                      (int (CAP_PROP_FRAME_HEIGHT cap))
                      (int (CAP_PROP_FRAME_COUNT cap)) (basename video_path)
                      (stream cap) loop_start) as Hp.
        rewrite Hloop in Hp. exact Hp. }
      destruct res as [| e]; simpl; rewrite Hdirs;
        rewrite ?outputs_done_app, ?Hprinted; simpl; rewrite ?app_nil_r.
      * repeat split.
        exists [join output_dir ("blurred_" +:+ basename video_path)]. auto.
      * repeat split. exists []. rewrite !app_nil_r. auto.
    + simpl. rewrite <- !app_assoc, !outputs_done_app. simpl.
      rewrite !app_nil_r. repeat split; try assumption.
      exists []. rewrite !app_nil_r. auto.
Qed.

Lemma process_videos_other (paths : list string) (w : World) (p : string) :
  Forall (fun q => p <> output_path_of output_dir q) paths ->
  files (fst (batch paths w)) !! p = files w !! p.
Proof.
  revert w. induction paths as [| q paths IH]; intros w Hp; [reflexivity |].
  apply Forall_cons in Hp. destruct Hp as [Hq Hp]. simpl.
  pose proof (process_video_other w q p Hq) as Hone.
  destruct (one w q) as [w' [| e]]; simpl in Hone.
  - rewrite IH by exact Hp. exact Hone.
  - exact Hone.
Qed.

Lemma process_videos_dirs (paths : list string) (w : World) :
  dirs (fst (batch paths w)) = dirs w.
Proof.
  revert w. induction paths as [| q paths IH]; intros w; [reflexivity |].
  simpl. pose proof (process_video_dirs w q) as Hone.
  destruct (one w q) as [w' [| e]]; simpl in Hone.
  - rewrite IH. exact Hone.
  - exact Hone.
Qed.

Lemma process_videos_disk (paths : list string) (w1 w2 : World) :
  files w1 = files w2 -> dirs w1 = dirs w2 ->
  snd (batch paths w1) = snd (batch paths w2) /\
  files (fst (batch paths w1)) = files (fst (batch paths w2)) /\
  dirs (fst (batch paths w1)) = dirs (fst (batch paths w2)) /\
  exists outs,
    outputs_done (console (fst (batch paths w1))) =
      outputs_done (console w1) ++ outs /\
    outputs_done (console (fst (batch paths w2))) =
      outputs_done (console w2) ++ outs.
Proof.
  revert w1 w2. induction paths as [| p paths IH]; intros w1 w2 Hfiles Hdirs.
  - simpl. repeat split; try assumption. exists []. rewrite !app_nil_r. auto.
  - simpl.
    destruct (process_video_disk w1 w2 p Hfiles Hdirs)
      as (Hres & Hf & Hd & outs1 & Ho1 & Ho2).
    destruct (one w1 p) as [w1' res1]. destruct (one w2 p) as [w2' res2].
    simpl in *. subst res2. destruct res1 as [| e].
    + destruct (IH _ _ Hf Hd) as (Hres' & Hf' & Hd' & outs2 & Ho1' & Ho2').
      repeat split; try assumption.
      exists (outs1 ++ outs2). rewrite Ho1', Ho2', Ho1, Ho2, <- !app_assoc. auto.
    + simpl. repeat split; try assumption. exists outs1. auto.
Qed.

Lemma process_video_keeps (w : World) (video_path p : string) :
  is_Some (files w !! p) -> is_Some (files (fst (one w video_path)) !! p).
Proof.
  intros Hsome. unfold process_video.
  destruct (negb _); [exact Hsome |].
  destruct (_ ≫= VideoCapture) as [cap |]; [| exact Hsome].
  destruct (video_loop _ _ _ _ _ _ _ _ _ _) as [st [| e]]; simpl;
    rewrite lookup_insert; case_decide; eauto.
Qed.

Lemma process_videos_keeps (paths : list string) (w : World) (p : string) :
  is_Some (files w !! p) -> is_Some (files (fst (batch paths w)) !! p).
Proof.
  revert w. induction paths as [| q paths IH]; intros w Hsome; [exact Hsome |].
  simpl. pose proof (process_video_keeps w q p Hsome) as Hone.
  destruct (one w q) as [w' [| e]]; simpl in Hone.
  - apply IH. exact Hone.
  - exact Hone.
Qed.

Lemma process_videos_app (paths1 paths2 : list string) (w : World) :
  batch (paths1 ++ paths2) w =
  match batch paths1 w with
  | (w', Returned) => batch paths2 w'
  | (w', Raised e) => (w', Raised e)
  end.
Proof.
  revert w. induction paths1 as [| p paths1 IH]; intros w; simpl.
  - reflexivity.
  - destruct (one w p) as [w' [| e]]; [apply IH | reflexivity].
Qed.

End VideoBatch.

Section VideoCalls.
Context `{Ext : Externals}.
Variables (output_dir : string).
Variables (blur_kernel : Kernel) (confidence_threshold : Q).
Variable detection_interval : Z.

Local Abbreviation videos paths w :=
  (blur_faces_in_videos paths output_dir blur_kernel confidence_threshold
     detection_interval w).

Lemma videos_other (video_paths : list string) (w : World) (p : string) :
  Forall (fun q => p <> output_path_of output_dir q) video_paths ->
  files (fst (videos video_paths w)) !! p = files w !! p.
Proof.
  intros Hp. unfold blur_faces_in_videos.
  destruct (YOLO _) as [e | model]; simpl.
  - rewrite files_ensure_output_dir. reflexivity.
  - pose proof (process_videos_other model output_dir blur_kernel
                  confidence_threshold detection_interval video_paths
                  (ensure_output_dir w output_dir) p Hp) as Hother.
    destruct (process_videos _ _ _ _ _ _ _) as [w' [| e]]; simpl in *;
      rewrite Hother, files_ensure_output_dir; reflexivity.
Qed.

(** X17: a call of the video pipeline, however it ends, changes no file but
    the outputs of its inputs: any path that is the output path of none of
    the inputs holds after the call what it held before. *)
Theorem videos_write_only_outputs (video_paths : list string) (w : World)
    (p : string) :
  Forall (fun q => p <> output_path_of output_dir q) video_paths ->
  files (fst (videos video_paths w)) !! p = files w !! p.
Proof. apply videos_other. Qed.

(** X19: a video that is missing, or that does not open, when the call
    starts, and that is the output path of no input before it, costs the
    batch nothing but warnings: the call ends the same way and leaves the
    files, the directories and the outputs reported of the same call
    without it. *)
Theorem unopened_video_skipped (pre post : list string) (video_path : string)
    (w : World) :
  files w !! video_path ≫= VideoCapture = None ->
  Forall (fun q => video_path <> output_path_of output_dir q) pre ->
  snd (videos (pre ++ video_path :: post) w) = snd (videos (pre ++ post) w) /\
  files (fst (videos (pre ++ video_path :: post) w)) =
    files (fst (videos (pre ++ post) w)) /\
  dirs (fst (videos (pre ++ video_path :: post) w)) =
    dirs (fst (videos (pre ++ post) w)) /\
  outputs_done (console (fst (videos (pre ++ video_path :: post) w))) =
    outputs_done (console (fst (videos (pre ++ post) w))).
Proof.
  intros Hopen Hpre. unfold blur_faces_in_videos.
  destruct (YOLO _) as [e | model]; [auto |].
  set (w0 := ensure_output_dir w output_dir).
  rewrite !process_videos_app.
  pose proof (process_videos_other model output_dir blur_kernel
                confidence_threshold detection_interval pre w0 video_path
                Hpre) as Hsame.
  destruct (process_videos _ _ _ _ _ pre w0) as [w1 [| e]]; [| auto].
  simpl in Hsame. simpl process_videos.
  assert (Hopen1 : files w1 !! video_path ≫= VideoCapture = None).
  { rewrite Hsame. unfold w0. rewrite files_ensure_output_dir. exact Hopen. }
  destruct (process_video_unopened model output_dir blur_kernel
              confidence_threshold detection_interval w1 video_path Hopen1)
    as (Hres & Hf & Hd & Ho).
  destruct (process_video _ _ _ _ _ w1 video_path) as [w2 res].
  simpl in *. subst res.
  destruct (process_videos_disk model output_dir blur_kernel
              confidence_threshold detection_interval post w2 w1 Hf Hd)
    as (Hres' & Hf' & Hd' & outs & Ho1 & Ho2).
  destruct (process_videos _ _ _ _ _ post w2) as [w3 res3].
  destruct (process_videos _ _ _ _ _ post w1) as [w3' res3'].
  simpl in *. subst res3'.
  destruct res3 as [| e]; simpl;
    rewrite ?outputs_done_snoc_other by discriminate;
    rewrite Ho1, Ho2, Ho; auto.
Qed.

End VideoCalls.

(** ** What the outputs hold *)

Lemma output_path_of_inj (output_dir p1 p2 : string) :
  output_path_of output_dir p1 = output_path_of output_dir p2 ->
  basename p1 = basename p2.
Proof.
  intros Heq. apply (f_equal basename) in Heq.
  rewrite !basename_output_path_of in Heq.
  apply (inj (String.app "blurred_")) in Heq. exact Heq.
Qed.

(** An input whose last component no later input shares is not overwritten
    by a later input. *)
Lemma later_outputs_differ (output_dir q : string) (post : list string) :
  basename q ∉ map basename post ->
  Forall (fun q' => output_path_of output_dir q <> output_path_of output_dir q')
    post.
Proof.
  intros Hfresh. apply Forall_forall. intros q' Hq' Heq.
  apply Hfresh. apply output_path_of_inj in Heq. rewrite Heq.
  apply list_elem_of_fmap. exists q'. split; [reflexivity | exact Hq'].
Qed.

Section OutputContent.
Context `{Ext : Externals}.
Variables (output_dir : string).
Variables (blur_kernel : Kernel) (confidence_threshold : Q).

(** X20: when the output directory is there, the model loads and the inputs
    are named as images and have different last components, the output of
    an input that decodes when the call starts, and that is the output path
    of no input, holds when the call returns the encoding of that image
    blurred at the boxes of the detections the comparison of line 51 lets
    through. *)
Theorem images_output_content (image_paths : list string) (w : World)
    (model : Model) (image_path : string) (frame : Frame) :
  output_dir_present w output_dir ->
  Forall (fun q => image_name q = true) image_paths ->
  YOLO (files w !! weights) = inr model ->
  NoDup (map basename image_paths) ->
  image_path ∈ image_paths ->
  cv2_imread w image_path = Some frame ->
  Forall (fun q => image_path <> output_path_of output_dir q) image_paths ->
  files (blur_faces_in_images image_paths output_dir blur_kernel
           confidence_threshold w)
    !! output_path_of output_dir image_path =
  Some (imencode (output_path_of output_dir image_path)
          (blur_image_frame model blur_kernel confidence_threshold frame)).
Proof.
  intros _ _ Hload Hnodup Hin Hread Hnot.
  rewrite (images_loaded _ _ _ _ _ _ Hload). simpl files.
  apply list_elem_of_split in Hin. destruct Hin as (pre & post & ->).
  rewrite map_app in Hnodup. simpl in Hnodup.
  apply NoDup_app in Hnodup. destruct Hnodup as (_ & _ & Hnodup).
  apply NoDup_cons in Hnodup. destruct Hnodup as [Hfresh _].
  apply Forall_app in Hnot. destruct Hnot as [Hpre _].
  rewrite fold_left_app. simpl fold_left.
  rewrite batch_other by (apply later_outputs_differ; exact Hfresh).
  rewrite (process_image_read _ _ _ _ _ _ frame).
  - simpl. apply lookup_insert_eq.
  - unfold cv2_imread in *. rewrite batch_other by exact Hpre.
    rewrite files_ensure_output_dir. exact Hread.
Qed.

Lemma process_videos_returns (model : Model) (detection_interval : Z)
    (paths : list string) (w : World) :
  detection_interval <> 0 ->
  snd (process_videos model output_dir blur_kernel confidence_threshold
         detection_interval paths w) = Returned.
Proof.
  intros Hd. revert w. induction paths as [| p paths IH]; intros w;
    [reflexivity |].
  simpl. unfold process_video.
  destruct (negb _); [apply IH |].
  destruct (_ ≫= VideoCapture) as [cap |]; [| apply IH].
  pose proof (video_loop_returns model blur_kernel confidence_threshold
                detection_interval (int (CAP_PROP_FRAME_WIDTH cap))
                (int (CAP_PROP_FRAME_HEIGHT cap))
                (int (CAP_PROP_FRAME_COUNT cap)) (basename p) Hd
                (stream cap) loop_start) as Hret.
  destruct (video_loop _ _ _ _ _ _ _ _ _ _) as [st res].
  simpl in Hret. subst res. apply IH.
Qed.

Lemma videos_returned (video_paths : list string) (detection_interval : Z)
    (w : World) :
  detection_interval <> 0 ->
  snd (blur_faces_in_videos video_paths output_dir blur_kernel
         confidence_threshold detection_interval w) = Returned.
Proof.
  intros Hd. unfold blur_faces_in_videos.
  destruct (YOLO _) as [e | model]; [reflexivity |].
  pose proof (process_videos_returns model detection_interval video_paths
                (ensure_output_dir w output_dir) Hd) as Hret.
  destruct (process_videos _ _ _ _ _ _ _) as [w' res].
  simpl in Hret. subst res. reflexivity.
Qed.

(** X22: with a detection interval other than zero, when the output
    directory is there, the model loads and the inputs have different last
    components, the output of an input that opens when the call starts with
    a frame rate of one frame a second at least, and that is the output
    path of no input, holds when the call returns what the writer makes of
    the frame rate, the width and the height of the capture as integers and
    of the frames the loop wrote for the frames of the capture. *)
Theorem videos_output_content (video_paths : list string)
    (detection_interval : Z) (w : World) (model : Model)
    (video_path : string) (b : Blob) (cap : Video Pixel) :
  detection_interval <> 0 ->
  output_dir_present w output_dir ->
  YOLO (files w !! weights) = inr model ->
  NoDup (map basename video_paths) ->
  video_path ∈ video_paths ->
  files w !! video_path = Some b ->
  VideoCapture b = Some cap ->
  1 <= int (CAP_PROP_FPS cap) ->
  Forall (fun q => video_path <> output_path_of output_dir q) video_paths ->
  let width := int (CAP_PROP_FRAME_WIDTH cap) in
  let height := int (CAP_PROP_FRAME_HEIGHT cap) in
  files (fst (blur_faces_in_videos video_paths output_dir blur_kernel
                confidence_threshold detection_interval w))
    !! output_path_of output_dir video_path =
  Some (VideoWriter (output_path_of output_dir video_path) fourcc_mp4v
          (int (CAP_PROP_FPS cap)) (width, height)
          (written
             (fst (video_loop model blur_kernel confidence_threshold
                     detection_interval width height
                     (int (CAP_PROP_FRAME_COUNT cap)) (basename video_path)
                     (stream cap) loop_start)))).
Proof.
  intros Hd _ Hload Hnodup Hin Hfile Hopen _ Hnot width height.
  unfold blur_faces_in_videos. rewrite files_ensure_output_dir, Hload.
  set (w0 := ensure_output_dir w output_dir).
  pose proof (process_videos_returns model detection_interval video_paths w0 Hd)
    as Hret.
  destruct (process_videos _ _ _ _ _ video_paths w0) as [w' res] eqn:Hrun.
  simpl in Hret. subst res. simpl files.
  change w' with (fst (w', Returned)). rewrite <- Hrun. clear Hrun w'.
  apply list_elem_of_split in Hin. destruct Hin as (pre & post & ->).
  rewrite map_app in Hnodup. simpl in Hnodup.
  apply NoDup_app in Hnodup. destruct Hnodup as (_ & _ & Hnodup).
  apply NoDup_cons in Hnodup. destruct Hnodup as [Hfresh _].
  apply Forall_app in Hnot. destruct Hnot as [Hpre _].
  rewrite process_videos_app.
  pose proof (process_videos_returns model detection_interval pre w0 Hd)
    as Hret1.
  pose proof (process_videos_other model output_dir blur_kernel
                confidence_threshold detection_interval pre w0 video_path Hpre)
    as Hsame.
  destruct (process_videos _ _ _ _ _ pre w0) as [w1 res1].
  simpl in Hret1, Hsame. subst res1. simpl process_videos.
  assert (Hfile1 : files w1 !! video_path = Some b).
  { rewrite Hsame. unfold w0. rewrite files_ensure_output_dir. exact Hfile. }
  rewrite (process_video_opened _ _ _ _ _ _ _ _ _ Hd Hfile1 Hopen).
  cbv zeta.
  rewrite process_videos_other by (apply later_outputs_differ; exact Hfresh).
  simpl. apply lookup_insert_eq.
Qed.

End OutputContent.

(** ** Inputs that share a last component *)

Lemma size_list_to_set_le (l : list string) :
  (base.size (list_to_set l : gset string) <= length l)%nat.
Proof.
  induction l as [| x l IH].
  - rewrite list_to_set_nil, size_empty. reflexivity.
  - rewrite list_to_set_cons. simpl length.
    destruct (decide (x ∈ (list_to_set l : gset string))) as [Hin | Hout].
    + rewrite (subseteq_union_1_L {[x]} (list_to_set l))
        by (apply singleton_subseteq_l; exact Hin).
      lia.
    + rewrite size_union by (apply disjoint_singleton_l; exact Hout).
      rewrite size_singleton. lia.
Qed.

(** A list that holds a path twice holds fewer paths than it has places. *)
Lemma repeated_fewer_distinct (a b c : list string) (x : string) :
  (base.size (list_to_set (a ++ x :: b ++ x :: c) : gset string) <
   length (a ++ x :: b ++ x :: c))%nat.
Proof.
  replace (list_to_set (a ++ x :: b ++ x :: c) : gset string)
    with (list_to_set (a ++ x :: b ++ c) : gset string).
  2: { apply set_eq. intros y.
       rewrite !elem_of_list_to_set, !elem_of_app, !elem_of_cons,
         !elem_of_app, elem_of_cons.
       tauto. }
  pose proof (size_list_to_set_le (a ++ x :: b ++ c)) as Hle.
  rewrite !length_app in *. simpl in *. rewrite !length_app in *. simpl.
  lia.
Qed.

Section ImageRuns.
Context `{Ext : Externals}.
Variables (model : Model) (output_dir : string).
Variables (blur_kernel : Kernel) (confidence_threshold : Q).

Local Abbreviation one :=
  (process_image model output_dir blur_kernel confidence_threshold).
Local Abbreviation batch paths w := (fold_left one paths w).

(** An image that decodes when the batch starts, and that no input before
    it overwrites, is written and reported when its turn comes. *)
Lemma batch_read (pre : list string) (image_path : string) (w : World)
    (frame : Frame) :
  cv2_imread w image_path = Some frame ->
  Forall (fun q => image_path <> output_path_of output_dir q) pre ->
  let output_path := output_path_of output_dir image_path in
  files (one (batch pre w) image_path) =
    <[output_path :=
        imencode output_path
          (blur_image_frame model blur_kernel confidence_threshold frame)]>
      (files (batch pre w)) /\
  exists outs,
    outputs_done (console (one (batch pre w) image_path)) =
    outputs_done (console w) ++ outs ++ [output_path].
Proof.
  intros Hread Hpre output_path.
  assert (Hread' : cv2_imread (batch pre w) image_path = Some frame).
  { unfold cv2_imread in *.
    rewrite (batch_other model output_dir blur_kernel confidence_threshold)
      by exact Hpre.
    exact Hread. }
  rewrite (process_image_read _ _ _ _ _ _ _ Hread'). simpl. split; [reflexivity |].
  destruct (batch_outputs model output_dir blur_kernel confidence_threshold
              pre w) as (outs & Ho & _).
  exists outs. rewrite outputs_done_app, Ho. simpl.
  rewrite <- app_assoc. reflexivity.
Qed.

(** Two images of one last component in a batch: the output holds the
    later one, and is reported twice. *)
Lemma batch_same_basename (l1 l2 l3 : list string) (p1 p2 : string)
    (w : World) (f1 f2 : Frame) :
  basename p1 = basename p2 ->
  cv2_imread w p1 = Some f1 ->
  cv2_imread w p2 = Some f2 ->
  Forall (fun q => p1 <> output_path_of output_dir q) l1 ->
  Forall (fun q => p2 <> output_path_of output_dir q) (l1 ++ l2) ->
  basename p2 ∉ map basename l3 ->
  let out := output_path_of output_dir p1 in
  let w' := batch (l1 ++ p1 :: l2 ++ p2 :: l3) w in
  files w' !! out =
    Some (imencode out
            (blur_image_frame model blur_kernel confidence_threshold f2)) /\
  exists a b c,
    outputs_done (console w') =
    outputs_done (console w) ++ a ++ out :: b ++ out :: c.
Proof.
  intros Hname Hr1 Hr2 Hp1 Hp2 Hfresh out w'.
  assert (Hout : output_path_of output_dir p2 = out).
  { unfold out, output_path_of. rewrite Hname. reflexivity. }
  apply Forall_app in Hp2. destruct Hp2 as [Hp21 Hp22].
  unfold w'. rewrite fold_left_app. simpl fold_left.
  rewrite fold_left_app. simpl fold_left.
  destruct (batch_read l1 p1 w f1 Hr1 Hp1) as (Hf1 & a & Ha).
  set (w1 := one (batch l1 w) p1) in *.
  assert (Hr2' : cv2_imread w1 p2 = Some f2).
  { unfold cv2_imread in *. rewrite Hf1.
    rewrite lookup_insert_ne by (apply output_path_of_fresh; exact Hname).
    rewrite (batch_other model output_dir blur_kernel confidence_threshold)
      by exact Hp21.
    exact Hr2. }
  destruct (batch_read l2 p2 w1 f2 Hr2' Hp22) as (Hf2 & b & Hb).
  set (w2 := one (batch l2 w1) p2) in *.
  destruct (batch_outputs model output_dir blur_kernel confidence_threshold
              l3 w2) as (c & Hc & _).
  rewrite Hout in Hf2, Hb. split.
  - rewrite (batch_other model output_dir blur_kernel confidence_threshold).
    + rewrite Hf2. apply lookup_insert_eq.
    + rewrite <- Hout. apply later_outputs_differ. exact Hfresh.
  - exists a, b, c. rewrite Hc, Hb, Ha.
    rewrite <- !app_assoc. reflexivity.
Qed.

End ImageRuns.

Section VideoRuns.
Context `{Ext : Externals}.
Variables (model : Model) (output_dir : string).
Variables (blur_kernel : Kernel) (confidence_threshold : Q).
Variable detection_interval : Z.
Hypothesis interval_nonzero : detection_interval <> 0.

Local Abbreviation one :=
  (process_video model output_dir blur_kernel confidence_threshold
     detection_interval).
Local Abbreviation batch :=
  (process_videos model output_dir blur_kernel confidence_threshold
     detection_interval).

Lemma process_videos_returned (paths : list string) (w : World) :
  batch paths w = (fst (batch paths w), Returned).
Proof.
  pose proof (process_videos_returns output_dir blur_kernel
                confidence_threshold model detection_interval paths w
                interval_nonzero) as Hret.
  destruct (batch paths w) as [w' res]. simpl in *. subst res. reflexivity.
Qed.

Lemma process_videos_split (pre : list string) (video_path : string)
    (post : list string) (w : World) :
  batch (pre ++ video_path :: post) w =
  batch post (fst (one (fst (batch pre w)) video_path)).
Proof.
  rewrite process_videos_app, (process_videos_returned pre w).
  pose proof (process_videos_returned [video_path] (fst (batch pre w))) as Hone.
  simpl in *.
  destruct (one (fst (batch pre w)) video_path) as [w' [| e]];
    [reflexivity | discriminate Hone].
Qed.

Lemma process_videos_reports (paths : list string) (w : World) :
  exists outs,
    outputs_done (console (fst (batch paths w))) =
    outputs_done (console w) ++ outs.
Proof.
  destruct (process_videos_disk model output_dir blur_kernel
              confidence_threshold detection_interval paths w w
              eq_refl eq_refl) as (_ & _ & _ & outs & Ho & _).
  exists outs. exact Ho.
Qed.

(** A video that opens when the batch starts, and that no input before it
    overwrites, is written and reported when its turn comes. *)
Lemma process_videos_opened (pre : list string) (video_path : string)
    (w : World) (b : Blob) (cap : Video Pixel) :
  files w !! video_path = Some b ->
  VideoCapture b = Some cap ->
  Forall (fun q => video_path <> output_path_of output_dir q) pre ->
  let output_path := output_path_of output_dir video_path in
  let width := int (CAP_PROP_FRAME_WIDTH cap) in
  let height := int (CAP_PROP_FRAME_HEIGHT cap) in
  files (fst (one (fst (batch pre w)) video_path)) =
    <[output_path :=
        VideoWriter output_path fourcc_mp4v (int (CAP_PROP_FPS cap))
          (width, height)
          (written
             (fst (video_loop model blur_kernel confidence_threshold
                     detection_interval width height
                     (int (CAP_PROP_FRAME_COUNT cap)) (basename video_path)
                     (stream cap) loop_start)))]>
      (files (fst (batch pre w))) /\
  exists outs,
    outputs_done (console (fst (one (fst (batch pre w)) video_path))) =
    outputs_done (console w) ++ outs ++ [output_path].
Proof.
  intros Hfile Hopen Hpre output_path width height.
  assert (Hfile' : files (fst (batch pre w)) !! video_path = Some b).
  { rewrite process_videos_other by exact Hpre. exact Hfile. }
  rewrite (process_video_opened _ _ _ _ _ _ _ _ _ interval_nonzero Hfile' Hopen).
  simpl. split; [reflexivity |].
  destruct (process_videos_reports pre w) as (outs & Ho).
  exists outs. rewrite !outputs_done_app, Ho. simpl.
  rewrite outputs_done_video_loop. simpl.
  rewrite <- !app_assoc. reflexivity.
Qed.

(** Two videos of one last component in a batch: the output holds the
    later one, and is reported twice. *)
Lemma process_videos_same_basename (l1 l2 l3 : list string) (p1 p2 : string)
    (w : World) (b1 b2 : Blob) (cap1 cap2 : Video Pixel) :
  basename p1 = basename p2 ->
  files w !! p1 = Some b1 -> VideoCapture b1 = Some cap1 ->
  files w !! p2 = Some b2 -> VideoCapture b2 = Some cap2 ->
  Forall (fun q => p1 <> output_path_of output_dir q) l1 ->
  Forall (fun q => p2 <> output_path_of output_dir q) (l1 ++ l2) ->
  basename p2 ∉ map basename l3 ->
  let out := output_path_of output_dir p1 in
  let width := int (CAP_PROP_FRAME_WIDTH cap2) in
  let height := int (CAP_PROP_FRAME_HEIGHT cap2) in
  let w' := fst (batch (l1 ++ p1 :: l2 ++ p2 :: l3) w) in
  files w' !! out =
    Some (VideoWriter out fourcc_mp4v (int (CAP_PROP_FPS cap2))
            (width, height)
            (written
               (fst (video_loop model blur_kernel confidence_threshold
                       detection_interval width height
                       (int (CAP_PROP_FRAME_COUNT cap2)) (basename p2)
                       (stream cap2) loop_start)))) /\
  exists a b c,
    outputs_done (console w') =
    outputs_done (console w) ++ a ++ out :: b ++ out :: c.
Proof.
  intros Hname Hfile1 Hopen1 Hfile2 Hopen2 Hp1 Hp2 Hfresh out width height w'.
  assert (Hout : output_path_of output_dir p2 = out).
  { unfold out, output_path_of. rewrite Hname. reflexivity. }
  apply Forall_app in Hp2. destruct Hp2 as [Hp21 Hp22].
  unfold w'. rewrite !process_videos_split.
  destruct (process_videos_opened l1 p1 w b1 cap1 Hfile1 Hopen1 Hp1)
    as (Hf1 & a & Ha).
  set (w1 := fst (one (fst (batch l1 w)) p1)) in *.
  assert (Hfile2' : files w1 !! p2 = Some b2).
  { rewrite Hf1.
    rewrite lookup_insert_ne by (apply output_path_of_fresh; exact Hname).
    rewrite process_videos_other by exact Hp21. exact Hfile2. }
  destruct (process_videos_opened l2 p2 w1 b2 cap2 Hfile2' Hopen2 Hp22)
    as (Hf2 & b & Hb).
  set (w2 := fst (one (fst (batch l2 w1)) p2)) in *.
  destruct (process_videos_reports l3 w2) as (c & Hc).
  rewrite Hout in Hf2, Hb. split.
  - rewrite process_videos_other.
    + rewrite Hf2. apply lookup_insert_eq.
    + rewrite <- Hout. apply later_outputs_differ. exact Hfresh.
  - exists a, b, c. rewrite Hc, Hb, Ha.
    rewrite <- !app_assoc. reflexivity.
Qed.

End VideoRuns.

Section SameBasename.
Context `{Ext : Externals}.
Variables (output_dir : string).
Variables (blur_kernel : Kernel) (confidence_threshold : Q).

(** C10: two inputs of one call whose last components are the same are
    saved under one path, the output directory joined with [blurred_] and
    that component, whatever stands before, between and after them in the
    list. With the output directory there and the model loaded, when both
    are read at the start of the call, neither is the output of an earlier
    input and no input after the second has their last component, the file
    at that path holds, when the call returns, the result of the second
    one; the console reports the path twice, so that the call reports more
    outputs than there are files. For images the inputs are named as
    images; for videos the interval is not zero and both captures have a
    frame rate of one frame a second at least. *)
Theorem same_basename_overwrites (l1 l2 l3 : list string) (p1 p2 : string)
    (w : World) (model : Model) :
  basename p1 = basename p2 ->
  output_dir_present w output_dir ->
  YOLO (files w !! weights) = inr model ->
  Forall (fun q => p1 <> output_path_of output_dir q) l1 ->
  Forall (fun q => p2 <> output_path_of output_dir q) (l1 ++ l2) ->
  basename p2 ∉ map basename l3 ->
  let paths := l1 ++ p1 :: l2 ++ p2 :: l3 in
  let out := join output_dir ("blurred_" +:+ basename p1) in
  output_path_of output_dir p1 = out /\
  output_path_of output_dir p2 = out /\
  (forall f1 f2 : Frame,
     Forall (fun q => image_name q = true) paths ->
     cv2_imread w p1 = Some f1 ->
     cv2_imread w p2 = Some f2 ->
     let w' :=
       blur_faces_in_images paths output_dir blur_kernel confidence_threshold
         w in
     files w' !! out =
       Some (imencode out
               (blur_image_frame model blur_kernel confidence_threshold f2)) /\
     exists a b c : list string,
       outputs_done (console w') =
         outputs_done (console w) ++ a ++ out :: b ++ out :: c /\
       (base.size (list_to_set (a ++ out :: b ++ out :: c) : gset string) <
        length (a ++ out :: b ++ out :: c))%nat) /\
  (forall (detection_interval : Z) (b1 b2 : Blob) (cap1 cap2 : Video Pixel),
     detection_interval <> 0 ->
     files w !! p1 = Some b1 -> VideoCapture b1 = Some cap1 ->
     files w !! p2 = Some b2 -> VideoCapture b2 = Some cap2 ->
     1 <= int (CAP_PROP_FPS cap1) ->
     1 <= int (CAP_PROP_FPS cap2) ->
     let width := int (CAP_PROP_FRAME_WIDTH cap2) in
     let height := int (CAP_PROP_FRAME_HEIGHT cap2) in
     let r :=
       blur_faces_in_videos paths output_dir blur_kernel confidence_threshold
         detection_interval w in
     snd r = Returned /\
     files (fst r) !! out =
       Some (VideoWriter out fourcc_mp4v (int (CAP_PROP_FPS cap2))
               (width, height)
               (written
                  (fst (video_loop model blur_kernel confidence_threshold
                          detection_interval width height
                          (int (CAP_PROP_FRAME_COUNT cap2)) (basename p2)
                          (stream cap2) loop_start)))) /\
     exists a b c : list string,
       outputs_done (console (fst r)) =
         outputs_done (console w) ++ a ++ out :: b ++ out :: c /\
       (base.size (list_to_set (a ++ out :: b ++ out :: c) : gset string) <
        length (a ++ out :: b ++ out :: c))%nat).
Proof.
  intros Hname _ Hload Hp1 Hp2 Hfresh paths out.
  split; [reflexivity |].
  split; [unfold out, output_path_of; rewrite Hname; reflexivity |].
  split.
  - intros f1 f2 _ Hr1 Hr2 w'. unfold w'.
    rewrite (images_loaded _ _ _ _ _ _ Hload).
    assert (Hr1' : cv2_imread (ensure_output_dir w output_dir) p1 = Some f1).
    { unfold cv2_imread in *. rewrite files_ensure_output_dir. exact Hr1. }
    assert (Hr2' : cv2_imread (ensure_output_dir w output_dir) p2 = Some f2).
    { unfold cv2_imread in *. rewrite files_ensure_output_dir. exact Hr2. }
    destruct (batch_same_basename model output_dir blur_kernel
                confidence_threshold l1 l2 l3 p1 p2 _ f1 f2 Hname Hr1' Hr2'
                Hp1 Hp2 Hfresh) as (Hfile & a & b & c & Ho).
    split; [exact Hfile |].
    exists a, b, c. split; [| apply repeated_fewer_distinct].
    simpl console. rewrite outputs_done_snoc_other by discriminate.
    unfold paths. rewrite Ho, outputs_done_ensure_output_dir. reflexivity.
  - intros detection_interval b1 b2 cap1 cap2 Hd Hfile1 Hopen1 Hfile2 Hopen2
      _ _ width height r.
    assert (Hfile1' : files (ensure_output_dir w output_dir) !! p1 = Some b1).
    { rewrite files_ensure_output_dir. exact Hfile1. }
    assert (Hfile2' : files (ensure_output_dir w output_dir) !! p2 = Some b2).
    { rewrite files_ensure_output_dir. exact Hfile2. }
    destruct (process_videos_same_basename model output_dir blur_kernel
                confidence_threshold detection_interval Hd l1 l2 l3 p1 p2 _
                b1 b2 cap1 cap2 Hname Hfile1' Hopen1 Hfile2' Hopen2
                Hp1 Hp2 Hfresh) as (Hfile & a & b & c & Ho).
    unfold r, blur_faces_in_videos.
    rewrite files_ensure_output_dir, Hload.
    rewrite (process_videos_returned model output_dir blur_kernel
               confidence_threshold detection_interval Hd).
    simpl. split; [reflexivity |]. split; [exact Hfile |].
    exists a, b, c. split; [| apply repeated_fewer_distinct].
    rewrite outputs_done_snoc_other by discriminate.
    unfold paths. rewrite Ho, outputs_done_ensure_output_dir. reflexivity.
Qed.

End SameBasename.

(** C10 on the two images called [x.png] and on the two videos called
    [v.mp4] of two directories, with other inputs around them: the one
    output holds the second of the two. *)
Lemma same_basename_overwrites_witness :
  basename "in/a/x.png" = basename "in/b/x.png" /\
  basename "in/a/v.mp4" = basename "in/b/v.mp4" /\
  files (blur_faces_in_images (Ext := ex_externals)
           ["in/c/y.JPG"; "in/a/x.png"; "in/b/x.png"; "in/c/z.png"] "out"
           (51, 51) (1 # 2) ex_world_out)
    !! "out/blurred_x.png" =
    Some (ExImage
            (blur_image_frame (Ext := ex_externals) ex_model (51, 51) (1 # 2)
               ex_frame_b)) /\
  files (fst (blur_faces_in_videos (Ext := ex_externals)
                ["in/a/v.mp4"; "in/w.mp4"; "in/b/v.mp4"] "out" (51, 51)
                (1 # 2) 2 ex_world_out))
    !! "out/blurred_v.mp4" =
    Some (VideoWriter (Externals := ex_externals) "out/blurred_v.mp4"
            fourcc_mp4v 30 (4, 4)
            (written
               (fst (video_loop (Ext := ex_externals) ex_model (51, 51)
                       (1 # 2) 2 4 4 2 "v.mp4" [ex_frame_a; ex_frame_b]
                       loop_start)))).
Proof.
  assert (Hdir : output_dir_present (Ext := ex_externals) ex_world_out "out").
  { split; [discriminate |].
    split; [apply (bool_decide_unpack _); vm_compute; exact I | reflexivity]. }
  assert (Hload :
    YOLO (Externals := ex_externals) (files ex_world_out !! weights) =
      inr ex_model) by reflexivity.
  split; [reflexivity |]. split; [reflexivity |]. split.
  - destruct (same_basename_overwrites (Ext := ex_externals) "out" (51, 51)
                (1 # 2) ["in/c/y.JPG"] [] ["in/c/z.png"] "in/a/x.png"
                "in/b/x.png" ex_world_out ex_model) as (_ & _ & Himg & _).
    + reflexivity.
    + exact Hdir.
    + exact Hload.
    + apply (bool_decide_unpack _). vm_compute. exact I.
    + apply (bool_decide_unpack _). vm_compute. exact I.
    + apply (bool_decide_unpack _). vm_compute. exact I.
    + destruct (Himg ex_frame_a ex_frame_b) as (Hfile & _).
      * apply (bool_decide_unpack _). vm_compute. exact I.
      * reflexivity.
      * reflexivity.
      * exact Hfile.
  - destruct (same_basename_overwrites (Ext := ex_externals) "out" (51, 51)
                (1 # 2) [] ["in/w.mp4"] [] "in/a/v.mp4" "in/b/v.mp4"
                ex_world_out ex_model) as (_ & _ & _ & Hvid).
    + reflexivity.
    + exact Hdir.
    + exact Hload.
    + constructor.
    + apply (bool_decide_unpack _). vm_compute. exact I.
    + apply (bool_decide_unpack _). vm_compute. exact I.
    + destruct (Hvid 2 (ExVideo ex_video) (ExVideo ex_video_whole) ex_video
                  ex_video_whole) as (_ & Hfile & _).
      * discriminate.
      * reflexivity.
      * reflexivity.
      * reflexivity.
      * reflexivity.
      * vm_compute. discriminate.
      * vm_compute. discriminate.
      * exact Hfile.
Defined.

(** ** The script *)

Lemma lower_app (a b : string) : lower (a +:+ b) = lower a +:+ lower b.
Proof.
  induction a as [| c a IH]; [reflexivity |].
  rewrite append_cons. simpl. rewrite IH, append_cons. reflexivity.
Qed.

Lemma endswith_unfold (s suffix : string) :
  endswith s suffix =
  if String.eqb s suffix then true
  else match s with
       | EmptyString => false
       | String _ r => endswith r suffix
       end.
Proof. destruct s; reflexivity. Qed.

Lemma endswith_app (a e : string) : endswith (a +:+ e) e = true.
Proof.
  induction a as [| c a IH].
  - rewrite append_nil, endswith_unfold, String.eqb_refl. reflexivity.
  - rewrite append_cons, endswith_unfold.
    destruct (String.eqb (String c (a +:+ e)) e); [reflexivity | exact IH].
Qed.

Lemma basename_listed (d f : string) :
  has_sep f = false -> basename (join d f) = f.
Proof. apply basename_join. Qed.

(** X24: the paths the script hands to a pipeline are saved under
    different paths: the names of a directory are distinct and hold no
    separator, so no output of a run of the script overwrites another. *)
Theorem listed_outputs_distinct (d output_dir : string)
    (extensions names : list string) :
  NoDup names ->
  Forall (fun f => has_sep f = false) names ->
  NoDup (map (output_path_of output_dir) (listed d extensions names)).
Proof.
  intros Hnodup Hsep. unfold listed.
  change (NoDup (output_path_of output_dir <$>
                 (join d <$> filter (fun f => endswith_any (lower f) extensions = true) names))).
  rewrite <- list_fmap_compose.
  apply NoDup_fmap_2_strong; [| apply NoDup_filter; exact Hnodup].
  intros x y Hx Hy Heq. simpl in Heq.
  apply list_elem_of_filter in Hx. destruct Hx as [_ Hx].
  apply list_elem_of_filter in Hy. destruct Hy as [_ Hy].
  rewrite Forall_forall in Hsep.
  apply output_path_of_inj in Heq.
  rewrite !basename_listed in Heq by (apply Hsep; assumption).
  exact Heq.
Qed.

(** X25: the choice of the inputs by their extension ignores the case: a
    name of the directory made of any stem and of an ending whose lower case
    is one of the extensions is handed to the pipeline, joined to the
    directory. *)
Theorem listed_ignores_case (d : string) (extensions names : list string)
    (stem ending : string) :
  lower ending ∈ extensions ->
  stem +:+ ending ∈ names ->
  join d (stem +:+ ending) ∈ listed d extensions names.
Proof.
  intros Hext Hname. unfold listed.
  apply list_elem_of_fmap. exists (stem +:+ ending). split; [reflexivity |].
  apply list_elem_of_filter. split; [| exact Hname].
  unfold endswith_any. apply existsb_exists.
  exists (lower ending). split.
  - apply list_elem_of_In. exact Hext.
  - rewrite lower_app. apply endswith_app.
Qed.

Section ScriptRun.
Context `{Ext : Externals}.
Variable listdir : gmap string Blob -> gset string -> string -> option (list string).

Lemma ensure_input_dir_files (s : Script) (d : string) (created : string -> Line) :
  sfiles (ensure_input_dir s d created) = sfiles s.
Proof. unfold ensure_input_dir. destruct (negb _); reflexivity. Qed.

Lemma ensure_input_dir_dirs (s : Script) (d : string) (created : string -> Line) :
  sdirs s ⊆ sdirs (ensure_input_dir s d created).
Proof. unfold ensure_input_dir. destruct (negb _); simpl; set_solver. Qed.

Lemma ensure_input_dir_made (s : Script) (d : string) (created : string -> Line) :
  sfiles s !! d = None -> d ∈ sdirs (ensure_input_dir s d created).
Proof.
  intros Hfile. unfold ensure_input_dir.
  destruct (path_exists (enter s) d) eqn:Hex; simpl; [| set_solver].
  unfold path_exists in Hex. simpl in Hex. rewrite Hfile in Hex.
  rewrite bool_decide_eq_false_2 in Hex by (intros [x Hx]; discriminate).
  simpl in Hex. apply bool_decide_eq_true in Hex. exact Hex.
Qed.

(** X26: when line 4 loads the model, the two input directories are no
    regular files and a directory can be listed, the script runs to its
    end: the interval of ten keeps the division of line 128 from raising,
    and the image pipeline, when it has inputs, loads the model again after
    the video pipeline has run and prints its closing line last. *)
Theorem script_finishes (s : Script)
    (model : Model) :
  (forall fs ds d, d ∈ ds -> is_Some (listdir fs ds d)) ->
  YOLO (sfiles s !! weights) = inr model ->
  sfiles s !! input_videos_dir = None ->
  sfiles s !! input_images_dir = None ->
  snd (script listdir s) = Finished /\
  (last (stdout (fst (script listdir s))) = Some LineNoImages \/
   last (stdout (fst (script listdir s))) = Some (LinePipeline MsgAllImages)).
Proof.
  intros Hlist Hload Hvdir Hidir. unfold script. rewrite Hload. unfold main.
  set (s4 := say (say (say (say s LineTitle) LineInstall) LineCreateDirs)
               LineUncomment).
  set (s5 := ensure_input_dir s4 input_videos_dir LineVideosDirCreated).
  set (s6 := ensure_input_dir s5 input_images_dir LineImagesDirCreated).
  assert (Hfiles : sfiles s6 = sfiles s).
  { unfold s6, s5. rewrite !ensure_input_dir_files. reflexivity. }
  assert (Hv : input_videos_dir ∈ sdirs s6).
  { apply ensure_input_dir_dirs. apply ensure_input_dir_made. exact Hvdir. }
  assert (Hi : input_images_dir ∈ sdirs s6).
  { apply ensure_input_dir_made. unfold s5.
    rewrite ensure_input_dir_files. exact Hidir. }
  destruct (Hlist (sfiles s6) (sdirs s6) _ Hv) as [names_v ->].
  destruct (Hlist (sfiles s6) (sdirs s6) _ Hi) as [names_i ->].
  set (input_videos := listed input_videos_dir video_extensions names_v).
  set (input_images := listed input_images_dir image_extensions names_i).
  assert (Hcall : exists s7,
    match input_videos with
    | [] => (say s6 LineNoVideos, Returned)
    | _ :: _ =>
        let '(w, res) :=
          blur_faces_in_videos input_videos output_videos_dir (75, 75)
            (6 # 10) 10 (enter s6) in
        (leave s6 w, res)
    end = (s7, Returned) /\ sfiles s7 !! weights = sfiles s !! weights).
  { destruct input_videos as [| v vs] eqn:Hvs.
    - eexists. split; [reflexivity |]. simpl. rewrite Hfiles. reflexivity.
    - rewrite <- Hvs.
      pose proof (videos_returned output_videos_dir (75, 75) (6 # 10)
                    input_videos 10 (enter s6) ltac:(discriminate)) as Hret.
      pose proof (videos_other output_videos_dir (75, 75)
                    (6 # 10) 10 input_videos (enter s6) weights) as Hw.
      destruct (blur_faces_in_videos _ _ _ _ _ _) as [w res].
      simpl in Hret, Hw. subst res. eexists. split; [reflexivity |].
      simpl. rewrite Hw; [simpl; rewrite Hfiles; reflexivity |].
      apply Forall_forall. intros q _. apply output_path_of_not_weights. }
  destruct Hcall as (s7 & -> & Hweights).
  destruct input_images as [| i is_]; simpl.
  - split; [reflexivity |]. left. apply last_snoc.
  - split; [reflexivity |]. right.
    rewrite (images_loaded _ _ _ _ _ model)
      by (simpl; rewrite Hweights; exact Hload).
    simpl console. rewrite map_app, app_assoc. simpl. apply last_snoc.
Qed.

End ScriptRun.

(** * The further properties on the small instance *)

Lemma blur_faces_outside_witness :
  pixel_at (Ext := ex_externals)
    (blur_faces (Ext := ex_externals) 4 4 (51, 51) [(-2, 1, 2, 9)] ex_frame_a)
    0 3 = Some 40.
Proof.
  apply (blur_faces_outside (Ext := ex_externals) 4 4 (51, 51)
           [(-2, 1, 2, 9)] ex_frame_a 0 3).
  - lia.
  - lia.
  - constructor; [simpl; lia | constructor].
  - constructor; [unfold covers; simpl; lia | constructor].
Defined.

Lemma blur_box_inside_witness :
  covers (clamp 4 4 (-2, 1, 2, 9)) 1 0 /\
  pixel_at (Ext := ex_externals)
    (blur_box (Ext := ex_externals) 4 4 (51, 51) ex_frame_a (-2, 1, 2, 9))
    1 0 = Some 95.
Proof.
  assert (Hcov : covers (clamp 4 4 (-2, 1, 2, 9)) 1 0)
    by (unfold covers; simpl; lia).
  split; [exact Hcov |].
  exact (blur_box_inside (Ext := ex_externals) 4 4 (51, 51) ex_frame_a
           (-2, 1, 2, 9) 1 0 50 Hcov eq_refl).
Defined.

Lemma blur_box_empty_witness :
  blur_box (Ext := ex_externals) 4 4 (51, 51) ex_frame_a (5, 0, 9, 3) =
  ex_frame_a.
Proof.
  apply (blur_box_empty (Ext := ex_externals) 4 4 (51, 51) ex_frame_a 5 0 9 3);
    lia.
Defined.

Lemma int_towards_zero_witness :
  ((- 5 # 2 <= 0) /\ (- 5 # 2 <= inject_Z (-2)) /\ (inject_Z (-3) < - 5 # 2))%Q.
Proof.
  assert (Hneg : (- 5 # 2 <= 0)%Q) by (unfold Qle; simpl; lia).
  split; [exact Hneg |].
  exact (proj2 (int_towards_zero (- 5 # 2)) Hneg).
Defined.


Lemma detector_calls_count_witness :
  Z.of_nat
    (length
       (model_calls
          (fst (video_loop (Ext := ex_externals) ex_model (51, 51) (1 # 2) 2
                  4 4 3 "v.mp4" [ex_frame_a; ex_frame_b; ex_frame_a]
                  loop_start)))) = 1.
Proof.
  apply (detector_calls_count (Ext := ex_externals) ex_model (51, 51) (1 # 2)
           2 4 4 3 "v.mp4" ltac:(lia) [ex_frame_a; ex_frame_b; ex_frame_a]).
Defined.

Lemma loop_closed_form_witness :
  let frames := [ex_frame_a; ex_frame_b; ex_frame_a] in
  let st :=
    fst (video_loop (Ext := ex_externals) ex_model (51, 51) (1 # 2) 2 4 4 3
           "v.mp4" frames loop_start) in
  last_known_faces st = [(-2, 1, 2, 9)] /\
  written st =
    [ex_frame_a;
     blur_faces (Ext := ex_externals) 4 4 (51, 51) [(-2, 1, 2, 9)] ex_frame_b;
     blur_faces (Ext := ex_externals) 4 4 (51, 51) [(-2, 1, 2, 9)] ex_frame_a].
Proof.
  exact (loop_closed_form (Ext := ex_externals) ex_model (51, 51) (1 # 2) 2
           4 4 3 "v.mp4" ltac:(lia) [ex_frame_a; ex_frame_b; ex_frame_a]).
Defined.

Lemma short_video_untouched_witness :
  written
    (fst (video_loop (Ext := ex_externals) ex_model (51, 51) (1 # 2) 5 4 4 2
            "v.mp4" [ex_frame_a; ex_frame_b] loop_start)) =
  [ex_frame_a; ex_frame_b].
Proof.
  apply (short_video_untouched (Ext := ex_externals) ex_model (51, 51) (1 # 2)
           5 4 4 2 "v.mp4" ltac:(lia) [ex_frame_a; ex_frame_b]).
  simpl. lia.
Defined.

Lemma progress_every_thirty_witness :
  printed
    (fst (video_loop (Ext := ex_externals) ex_model (51, 51) (1 # 2) 10 4 4 61
            "v.mp4" (replicate 61 ex_frame_b) loop_start)) =
  [MsgFrame 30 61 "v.mp4"; MsgFrame 60 61 "v.mp4"].
Proof.
  apply (progress_every_thirty (Ext := ex_externals) ex_model (51, 51) (1 # 2)
           10 4 4 61 "v.mp4" (replicate 61 ex_frame_b)).
  discriminate.
Defined.


Lemma images_write_only_outputs_witness :
  files (blur_faces_in_images (Ext := ex_externals)
           ["in/a/x.png"; "in/b/x.png"] "out" (51, 51) (1 # 2) ex_world)
    !! "in/a/x.png" = Some (ExImage ex_frame_a).
Proof.
  apply (images_write_only_outputs (Ext := ex_externals) "out" (51, 51)
           (1 # 2) ["in/a/x.png"; "in/b/x.png"] ex_world "in/a/x.png").
  apply (bool_decide_unpack _). vm_compute. exact I.
Defined.

Lemma unreadable_image_skipped_witness :
  files (blur_faces_in_images (Ext := ex_externals)
           ["in/a/x.png"; "in/missing.png"; "in/b/x.png"] "out" (51, 51)
           (1 # 2) ex_world) =
  files (blur_faces_in_images (Ext := ex_externals)
           ["in/a/x.png"; "in/b/x.png"] "out" (51, 51) (1 # 2) ex_world).
Proof.
  apply (unreadable_image_skipped (Ext := ex_externals) "out" (51, 51) (1 # 2)
           ["in/a/x.png"] ["in/b/x.png"] "in/missing.png" ex_world).
  - reflexivity.
  - apply (bool_decide_unpack _). vm_compute. exact I.
Defined.

Lemma videos_write_only_outputs_witness :
  files (fst (blur_faces_in_videos (Ext := ex_externals)
                ["in/a/v.mp4"; "in/b/v.mp4"] "out" (51, 51) (1 # 2) 0
                ex_world))
    !! "in/b/v.mp4" = Some (ExVideo ex_video).
Proof.
  apply (videos_write_only_outputs (Ext := ex_externals) "out" (51, 51)
           (1 # 2) 0 ["in/a/v.mp4"; "in/b/v.mp4"] ex_world "in/b/v.mp4").
  apply (bool_decide_unpack _). vm_compute. exact I.
Defined.

Lemma unopened_video_skipped_witness :
  files (fst (blur_faces_in_videos (Ext := ex_externals)
                ["in/a/x.png"; "in/a/v.mp4"] "out" (51, 51) (1 # 2) 5
                ex_world)) =
  files (fst (blur_faces_in_videos (Ext := ex_externals)
                ["in/a/v.mp4"] "out" (51, 51) (1 # 2) 5 ex_world)).
Proof.
  apply (unopened_video_skipped (Ext := ex_externals) "out" (51, 51) (1 # 2) 5
           [] ["in/a/v.mp4"] "in/a/x.png" ex_world).
  - reflexivity.
  - constructor.
Defined.

Lemma images_output_content_witness :
  files (blur_faces_in_images (Ext := ex_externals)
           ["in/c/y.JPG"; "in/b/x.png"] "out" (51, 51) (1 # 2) ex_world_out)
    !! "out/blurred_x.png" =
  Some (ExImage
          (blur_image_frame (Ext := ex_externals) ex_model (51, 51) (1 # 2)
             ex_frame_b)).
Proof.
  apply (images_output_content (Ext := ex_externals) "out" (51, 51) (1 # 2)
           ["in/c/y.JPG"; "in/b/x.png"] ex_world_out ex_model "in/b/x.png"
           ex_frame_b).
  - split; [discriminate |].
    split; [apply (bool_decide_unpack _); vm_compute; exact I | reflexivity].
  - apply (bool_decide_unpack _). vm_compute. exact I.
  - reflexivity.
  - apply (bool_decide_unpack _). vm_compute. exact I.
  - apply (bool_decide_unpack _). vm_compute. exact I.
  - reflexivity.
  - apply (bool_decide_unpack _). vm_compute. exact I.
Defined.

Lemma videos_output_content_witness :
  files (fst (blur_faces_in_videos (Ext := ex_externals)
                ["in/a/x.png"; "in/a/v.mp4"] "out" (51, 51) (1 # 2) 2
                ex_world_out))
    !! "out/blurred_v.mp4" =
  Some (VideoWriter (Externals := ex_externals) "out/blurred_v.mp4"
          fourcc_mp4v 29 (4, 4)
          (written
             (fst (video_loop (Ext := ex_externals) ex_model (51, 51) (1 # 2)
                     2 4 4 3 "v.mp4" (stream ex_video) loop_start)))).
Proof.
  apply (videos_output_content (Ext := ex_externals) "out" (51, 51) (1 # 2)
           ["in/a/x.png"; "in/a/v.mp4"] 2 ex_world_out ex_model "in/a/v.mp4"
           (ExVideo ex_video) ex_video).
  - discriminate.
  - split; [discriminate |].
    split; [apply (bool_decide_unpack _); vm_compute; exact I | reflexivity].
  - reflexivity.
  - apply (bool_decide_unpack _). vm_compute. exact I.
  - apply (bool_decide_unpack _). vm_compute. exact I.
  - reflexivity.
  - reflexivity.
  - vm_compute. discriminate.
  - apply (bool_decide_unpack _). vm_compute. exact I.
Defined.

Lemma listed_outputs_distinct_witness :
  NoDup (map (output_path_of output_videos_dir)
           (listed input_videos_dir video_extensions
              ["a.MP4"; "b.mp4"; "notes.txt"])).
Proof.
  apply (listed_outputs_distinct input_videos_dir output_videos_dir
           video_extensions ["a.MP4"; "b.mp4"; "notes.txt"]).
  - apply (bool_decide_unpack _). vm_compute. exact I.
  - apply (bool_decide_unpack _). vm_compute. exact I.
Defined.

Lemma listed_ignores_case_witness :
  "input_videos/a.MP4" ∈
    listed input_videos_dir video_extensions ["a.MP4"; "b.mp4"; "notes.txt"].
Proof.
  apply (listed_ignores_case input_videos_dir video_extensions
           ["a.MP4"; "b.mp4"; "notes.txt"] "a" ".MP4").
  - apply (bool_decide_unpack _). vm_compute. exact I.
  - apply (bool_decide_unpack _). vm_compute. exact I.
Defined.

Lemma script_finishes_witness :
  snd (script (Ext := ex_externals) ex_listdir ex_script) = Finished /\
  last (stdout (fst (script (Ext := ex_externals) ex_listdir ex_script))) =
    Some (LinePipeline MsgAllImages).
Proof.
  destruct (script_finishes (Ext := ex_externals) ex_listdir ex_script ex_model)
    as [Hend Hlast].
  - intros fs ds d _. unfold ex_listdir. eauto.
  - reflexivity.
  - reflexivity.
  - reflexivity.
  - split; [exact Hend |]. vm_compute. reflexivity.
Defined.
